(** * Footbook mobile: the authenticated request pipeline

    A shallow embedding of [services/api.ts] (the axios instance with its
    request and response interceptors), [services/auth.ts] (the login call)
    and [contexts/AuthContext.tsx] (token persistence on login and logout),
    followed by the properties of the token lifecycle.

    The JavaScript is asynchronous but sequential: every [await] simply
    sequences effects, so an [async] function is a computation in a state and
    exception monad over a world that holds
    - the credential store (expo-secure-store), a finite map from keys to
      strings;
    - the heap of request configuration objects, so that a mutation such as
      [originalRequest._retry = true] is seen through every alias
      ([error.config] is the same object);
    - a clock that numbers the interactions with the outside (store calls and
      network calls), which the environment's answers may depend on;
    - a trace of what was done, used only to state properties.

    The outside is an environment record: which store calls throw, and what
    the network answers to a request. *)

From Stdlib Require Import ZArith String List.
From stdpp Require Import base gmap strings list pretty.

Set Warnings "-register-all".

Local Open Scope string_scope.

(** ** JavaScript values and HTTP data *)

(** Values found in a response body ([response.data] has type [any]). *)
Inductive Value : Type :=
| VUndefined
| VNull
| VString (s : string)
| VNumber (n : Z)
| VObject (fields : list (string * Value)).

(** Property read [v.k]; [undefined] when the property is missing or [v] is a
    primitive. *)
Fixpoint assoc_value (k : string) (fields : list (string * Value)) : Value :=
  match fields with
  | [] => VUndefined
  | (k', v) :: rest => if String.eqb k k' then v else assoc_value k rest
  end.

Definition get_field (k : string) (v : Value) : Value :=
  match v with
  | VObject fields => assoc_value k fields
  | _ => VUndefined
  end.

(** What a template literal makes of a value. *)
Definition template_of (v : Value) : string :=
  match v with
  | VUndefined => "undefined"
  | VNull => "null"
  | VString s => s
  | VNumber n => pretty n
  | VObject _ => "[object Object]"
  end.

Inductive Method : Type := GET | POST | PUT | DELETE.

(** A request body: nothing, a plain object (sent as JSON by axios), or a
    [FormData] with its fields in the order they were appended. *)
Inductive Body : Type :=
| NoBody
| JsonBody (v : Value)
| FormData (fields : list (string * string)).

(** [formData.append(name, value)] *)
Definition append (fields : list (string * string)) (name value : string)
  : list (string * string) :=
  fields ++ [(name, value)].

(** An axios request configuration object. [_retry] is the custom flag that
    the response interceptor sets; a missing flag reads as [false]. *)
Record Config : Type := mkConfig {
  baseURL : option string;
  url : string;
  method : Method;
  headers : gmap string string;
  body : Body;
  _retry : bool
}.

Record Response : Type := mkResponse {
  status : Z;
  data : Value
}.

Abbreviation loc := nat.

(** The error that axios rejects with. [config] points to the configuration
    object of the failed request; [response] is absent for a transport
    failure. *)
Record AxiosError : Type := mkAxiosError {
  config : option loc;
  response : option Response;
  message : string
}.

(** ** The outside world *)

Inductive StoreOp : Type :=
| GetItem (key : string)
| SetItem (key : string) (value : Value)
| DeleteItem (key : string).

(** Whatever a [throw] or a rejected promise carries. *)
Inductive Thrown : Type :=
| AxiosErr (e : AxiosError)
| StoreErr (op : StoreOp)
| TypeErr (what : string).

(** The answer of the network to one request: a response that axios resolves
    with, or a rejection (an HTTP error status with its response, or a
    transport failure without one). *)
Inductive Reply : Type :=
| Resolve (r : Response)
| Reject (r : option Response) (msg : string).

Record Env : Type := mkEnv {
  store_fault : nat -> StoreOp -> bool;
  transport : nat -> Config -> Reply
}.

Inductive Event : Type :=
| EvStore (op : StoreOp) (ok : bool)
| EvMarkRetry (l : loc)
| EvPost (c : Config) (r : Reply)
| EvDispatch (l : loc) (c : Config) (r : Reply)
| EvConsoleError (label : string).

(** The React state of [AuthProvider]. *)
Record Session : Type := mkSession {
  isAuthenticated : bool;
  accessToken : option string;
  refreshToken : option string;
  loading : bool
}.

(** The trace is kept newest first. *)
Record World : Type := mkWorld {
  store : gmap string string;
  heap : list Config;
  clock : nat;
  trace : list Event;
  session : Session
}.

(** ** The monad of asynchronous code *)

Inductive Outcome (A : Type) : Type :=
| Return (a : A)
| Throw (t : Thrown)
| OutOfFuel.

Arguments Return {A} a.
Arguments Throw {A} t.
Arguments OutOfFuel {A}.

Definition M (A : Type) : Type := World -> Outcome A * World.

Definition ret {A} (a : A) : M A := fun w => (Return a, w).

Definition throw {A} (t : Thrown) : M A := fun w => (Throw t, w).

Definition bind {A B} (m : M A) (k : A -> M B) : M B :=
  fun w =>
    match m w with
    | (Return a, w') => k a w'
    | (Throw t, w') => (Throw t, w')
    | (OutOfFuel, w') => (OutOfFuel, w')
    end.

Notation "x <- m ;; k" := (bind m (fun x => k))
  (at level 100, m at next level, right associativity).
Notation "m ;;; k" := (bind m (fun _ => k))
  (at level 100, right associativity).

(** [try { body } catch (e) { handler e }] *)
Definition try_catch {A} (body : M A) (handler : Thrown -> M A) : M A :=
  fun w =>
    match body w with
    | (Throw t, w') => handler t w'
    | other => other
    end.

Definition record (e : Event) (w : World) : World :=
  mkWorld (store w) (heap w) (clock w) (e :: trace w) (session w).

Definition tick (w : World) : World :=
  mkWorld (store w) (heap w) (S (clock w)) (trace w) (session w).

Definition with_store (s : gmap string string) (w : World) : World :=
  mkWorld s (heap w) (clock w) (trace w) (session w).

Definition with_heap (h : list Config) (w : World) : World :=
  mkWorld (store w) h (clock w) (trace w) (session w).

Definition with_session (s : Session) (w : World) : World :=
  mkWorld (store w) (heap w) (clock w) (trace w) s.

(** [console.error(label, ...)] *)
Definition console_error (label : string) : M unit :=
  fun w => (Return tt, record (EvConsoleError label) w).

Section Pipeline.

Variable env : Env.

(** ** expo-secure-store *)

(** A store call that throws leaves the store as it was. *)
Definition getItemAsync (key : string) : M (option string) :=
  fun w =>
    let op := GetItem key in
    if store_fault env (clock w) op
    then (Throw (StoreErr op), tick (record (EvStore op false) w))
    else (Return (store w !! key), tick (record (EvStore op true) w)).

(** The store accepts strings only and throws on any other value. *)
Definition setItemAsync (key : string) (value : Value) : M unit :=
  fun w =>
    let op := SetItem key value in
    if store_fault env (clock w) op
    then (Throw (StoreErr op), tick (record (EvStore op false) w))
    else
      match value with
      | VString s =>
          (Return tt, tick (record (EvStore op true) (with_store (<[key := s]> (store w)) w)))
      | _ => (Throw (StoreErr op), tick (record (EvStore op false) w))
      end.

Definition deleteItemAsync (key : string) : M unit :=
  fun w =>
    let op := DeleteItem key in
    if store_fault env (clock w) op
    then (Throw (StoreErr op), tick (record (EvStore op false) w))
    else (Return tt, tick (record (EvStore op true) (with_store (delete key (store w)) w))).

(** ** Configuration objects on the heap *)

Definition alloc (c : Config) : M loc :=
  fun w => (Return (length (heap w)), with_heap (heap w ++ [c]) w).

(** Reading through a reference that is [undefined] is a [TypeError]. *)
Definition read_config (o : option loc) : M Config :=
  fun w =>
    match o ≫= (fun l => heap w !! l) with
    | Some c => (Return c, w)
    | None => (Throw (TypeErr "Cannot read properties of undefined"), w)
    end.

Definition set_retry_flag (c : Config) : Config :=
  mkConfig (baseURL c) (url c) (method c) (headers c) (body c) true.

Definition set_header (name value : string) (c : Config) : Config :=
  mkConfig (baseURL c) (url c) (method c) (<[name := value]> (headers c)) (body c) (_retry c).

(** [originalRequest._retry = true] *)
Definition mark_retry (o : option loc) : M unit :=
  fun w =>
    match o with
    | Some l => (Return tt, record (EvMarkRetry l) (with_heap (alter set_retry_flag l (heap w)) w))
    | None => (Throw (TypeErr "Cannot set properties of undefined"), w)
    end.

(** [cfg.headers.Authorization = value] *)
Definition assign_authorization (o : option loc) (value : string) : M unit :=
  fun w =>
    match o with
    | Some l => (Return tt, with_heap (alter (set_header "Authorization" value) l (heap w)) w)
    | None => (Throw (TypeErr "Cannot read properties of undefined"), w)
    end.

(** ** axios *)

Definition API_BASE_URL : string := "http://localhost:5000/api/v1".

(** The defaults given to [axios.create]. *)
Definition api_defaults : Config :=
  mkConfig (Some API_BASE_URL) "" GET {[ "Content-Type" := "application/json" ]} NoBody false.

(** axios merges the instance defaults under the request's own settings;
    properties it does not know, such as [_retry], are carried over. *)
Definition mergeConfig (defaults c : Config) : Config :=
  mkConfig
    (match baseURL c with Some b => Some b | None => baseURL defaults end)
    (url c) (method c) (headers c ∪ headers defaults) (body c) (_retry c).

(** The adapter: the request as it stands on the heap goes out, and the
    promise settles with the network's answer. *)
Definition dispatchRequest (l : loc) : M Response :=
  fun w =>
    match heap w !! l with
    | None => (Throw (TypeErr "Cannot read properties of undefined"), w)
    | Some c =>
        let reply := transport env (clock w) c in
        let w' := tick (record (EvDispatch l c reply) w) in
        match reply with
        | Resolve r => (Return r, w')
        | Reject r msg => (Throw (AxiosErr (mkAxiosError (Some l) r msg)), w')
        end
    end.

(** [axios.post(url, data)] on the global axios: no base URL, no
    interceptors. *)
Definition axios_post (target : string) (payload : Value) : M Response :=
  fun w =>
    let c := mkConfig None target POST ∅ (JsonBody payload) false in
    let l := length (heap w) in
    let reply := transport env (clock w) c in
    let w' := tick (record (EvPost c reply) (with_heap (heap w ++ [c]) w)) in
    match reply with
    | Resolve r => (Return r, w')
    | Reject r msg => (Throw (AxiosErr (mkAxiosError (Some l) r msg)), w')
    end.

(** ** services/api.ts *)

(** Request interceptor to add auth token. (Its second handler,
    [(error) => Promise.reject(error)], passes a rejection on unchanged; the
    chain starts from a resolved promise, so no call ever reaches it.) *)
Definition request_interceptor (cfg : loc) : M loc :=
  try_catch
    (token <- getItemAsync "accessToken" ;;
     match token with
     | Some t =>
         if String.eqb t "" then ret tt
         else assign_authorization (Some cfg) ("Bearer " ++ t)
     | None => ret tt
     end)
    (fun error => console_error "Error getting token:") ;;;
  ret cfg.

Definition response_of (error : Thrown) : option Response :=
  match error with
  | AxiosErr e => response e
  | _ => None
  end.

Definition config_of (error : Thrown) : option loc :=
  match error with
  | AxiosErr e => config e
  | _ => None
  end.

(** [error.response?.status === n] *)
Definition status_is (n : Z) (error : Thrown) : bool :=
  match response_of error with
  | Some r => Z.eqb (status r) n
  | None => false
  end.

(** [const { accessToken, refreshToken: newRefreshToken } = response.data] *)
Definition destructure_tokens (d : Value) : M (Value * Value) :=
  match d with
  | VUndefined | VNull => throw (TypeErr "Cannot destructure property 'accessToken'")
  | _ => ret (get_field "accessToken" d, get_field "refreshToken" d)
  end.

Definition refresh_payload (refreshToken : string) : Value :=
  VObject [("refreshToken", VString refreshToken)].

(** The body of the [try] block. Its value says how the block was left:
    [Some c] by [return api(originalRequest)], with [c] the request as it
    stands at that point, and [None] by falling out of the [if]. The call
    [api(originalRequest)] is not awaited inside the block, so what it throws
    is not caught by the [catch]. *)
Definition refresh_tokens (originalRequest : option loc) : M (option Config) :=
  refreshToken <- getItemAsync "refreshToken" ;;
  match refreshToken with
  | Some rt =>
      if String.eqb rt "" then ret None
      else
        response <- axios_post (API_BASE_URL ++ "/auth/refresh") (refresh_payload rt) ;;
        tokens <- destructure_tokens (data response) ;;
        let '(accessToken, newRefreshToken) := tokens in
        setItemAsync "accessToken" accessToken ;;;
        setItemAsync "refreshToken" newRefreshToken ;;;
        assign_authorization originalRequest ("Bearer " ++ template_of accessToken) ;;;
        c <- read_config originalRequest ;;
        ret (Some c)
  | None => ret None
  end.

(** The [catch (refreshError)] block. *)
Definition clear_tokens (refreshError : Thrown) : M (option Config) :=
  deleteItemAsync "accessToken" ;;;
  deleteItemAsync "refreshToken" ;;;
  ret None.

(** Response interceptor for error handling and token refresh; [api] is the
    instance itself, called to replay the request. *)
Definition response_error_interceptor (api : Config -> M Response) (error : Thrown)
  : M Response :=
  let originalRequest := config_of error in
  refresh <- (if status_is 401 error
              then c <- read_config originalRequest ;; ret (negb (_retry c))
              else ret false) ;;
  replay <- (if refresh : bool
             then mark_retry originalRequest ;;;
                  try_catch (refresh_tokens originalRequest) clear_tokens
             else ret None) ;;
  match replay with
  | Some c => api c
  | None => console_error "API Error:" ;;; throw error
  end.

(** A call [api(cfg)]: merge the defaults, run the request interceptor, send,
    and hand a rejection to the response interceptor. The replay inside the
    response interceptor calls [api] again, hence the fuel. *)
Fixpoint api (fuel : nat) (cfg : Config) : M Response :=
  match fuel with
  | O => fun w => (OutOfFuel, w)
  | S fuel' =>
      l <- alloc (mergeConfig api_defaults cfg) ;;
      l <- request_interceptor l ;;
      try_catch (dispatchRequest l) (response_error_interceptor (api fuel'))
  end.

(** [api.post(url, data, { headers })] *)
Definition api_post (fuel : nat) (target : string) (payload : Body)
    (hdrs : gmap string string) : M Response :=
  api fuel (mkConfig None target POST hdrs payload false).

End Pipeline.

(** ** services/auth.ts *)

Module authService.

Record LoginRequest : Type := mkLoginRequest {
  email : string;
  password : string
}.

Inductive SkillLevel : Type := Beginner | Intermediate | Advanced.

Definition skill_name (s : SkillLevel) : string :=
  match s with
  | Beginner => "Beginner"
  | Intermediate => "Intermediate"
  | Advanced => "Advanced"
  end.

Record SignupRequest : Type := mkSignupRequest {
  firstName : string;
  lastName : string;
  signupEmail : string;
  phoneNumber : string;
  signupPassword : string;
  skillLevel : SkillLevel;
  profilePicture : option string
}.

Section Service.

Variable env : Env.

Definition multipart : gmap string string :=
  {[ "Content-Type" := "multipart/form-data" ]}.

Definition login (fuel : nat) (credentials : LoginRequest) : M Value :=
  let formData := append [] "email" (email credentials) in
  let formData := append formData "password" (password credentials) in
  response <- api_post env fuel "/auth/login" (FormData formData) multipart ;;
  ret (data response).

Definition signup (fuel : nat) (userData : SignupRequest) : M Value :=
  let formData := append [] "firstName" (firstName userData) in
  let formData := append formData "lastName" (lastName userData) in
  let formData := append formData "email" (signupEmail userData) in
  let formData := append formData "phoneNumber" (phoneNumber userData) in
  let formData := append formData "password" (signupPassword userData) in
  let formData := append formData "skillLevel" (skill_name (skillLevel userData)) in
  let formData :=
    match profilePicture userData with
    | Some picture => append formData "profilePicture" picture
    | None => formData
    end in
  response <- api_post env fuel "/auth/signup" (FormData formData) multipart ;;
  ret (data response).

End Service.

End authService.

(** ** contexts/AuthContext.tsx *)

Module AuthProvider.

Record TokenPair : Type := mkTokenPair {
  accessToken : string;
  refreshToken : string
}.

Definition set_session (s : Session) : M unit :=
  fun w => (Return tt, with_session s w).

Definition get_session : M Session :=
  fun w => (Return (session w), w).

Section Provider.

Variable env : Env.

Definition login (tokens : TokenPair) : M unit :=
  try_catch
    (setItemAsync env "accessToken" (VString (accessToken tokens)) ;;;
     setItemAsync env "refreshToken" (VString (refreshToken tokens)) ;;;
     s <- get_session ;;
     set_session (mkSession true (Some (accessToken tokens)) (Some (refreshToken tokens)) (loading s)))
    (fun error => console_error "Error storing tokens:" ;;; throw error).

Definition logout : M unit :=
  try_catch
    (deleteItemAsync env "accessToken" ;;;
     deleteItemAsync env "refreshToken" ;;;
     s <- get_session ;;
     set_session (mkSession false None None (loading s)))
    (fun error => console_error "Error removing tokens:").

Definition is_set (s : option string) : bool :=
  match s with
  | Some t => negb (String.eqb t "")
  | None => false
  end.

(** [try { ... } catch { ... } finally { setLoading(false) }] *)
Definition loadTokens : M unit :=
  try_catch
    (storedAccessToken <- getItemAsync env "accessToken" ;;
     storedRefreshToken <- getItemAsync env "refreshToken" ;;
     if is_set storedAccessToken && is_set storedRefreshToken
     then s <- get_session ;;
          set_session (mkSession true storedAccessToken storedRefreshToken (loading s))
     else ret tt)
    (fun error => console_error "Error loading tokens:") ;;;
  s <- get_session ;;
  match s with
  | mkSession authenticated access refresh _ =>
      set_session (mkSession authenticated access refresh false)
  end.

End Provider.

End AuthProvider.

(** ** Observing a run *)

(** The events between two worlds of one run, oldest first. *)
Definition events_between (w w' : World) : list Event :=
  rev (take (length (trace w') - length (trace w)) (trace w')).

(** The requests sent through the [api] instance. *)
Definition sent (es : list Event) : list Config :=
  omap (fun e => match e with EvDispatch _ c _ => Some c | _ => None end) es.

(** The same with the object each was sent from and the network's answer. *)
Definition dispatches (es : list Event) : list (loc * Config * Reply) :=
  omap (fun e => match e with EvDispatch l c r => Some (l, c, r) | _ => None end) es.

(** The calls of the refresh endpoint. *)
Definition refresh_calls (es : list Event) : list Config :=
  omap (fun e => match e with EvPost c _ => Some c | _ => None end) es.

(** The store calls, with whether they went through. *)
Definition store_calls (es : list Event) : list (StoreOp * bool) :=
  omap (fun e => match e with EvStore op ok => Some (op, ok) | _ => None end) es.

(** No refresh call happens before the request has been marked. *)
Fixpoint marked_before_refresh (marked : bool) (es : list Event) : bool :=
  match es with
  | [] => true
  | EvMarkRetry _ :: es' => marked_before_refresh true es'
  | EvPost _ _ :: es' => marked && marked_before_refresh marked es'
  | _ :: es' => marked_before_refresh marked es'
  end.

(** A computation only ever adds to the trace. *)
Definition grows {A : Type} (m : M A) : Prop :=
  forall w, exists new, trace (snd (m w)) = (new ++ trace w)%list.

(** How axios settles the promise of a request sent from the object at [l]. *)
Definition settle (l : loc) (reply : Reply) : Outcome Response :=
  match reply with
  | Resolve r => Return r
  | Reject r msg => Throw (AxiosErr (mkAxiosError (Some l) r msg))
  end.

(** The store holds a token under [key]: a non-empty string. Every test of a
    token in the source ([if (token)], [if (refreshToken)]) is a truthiness
    test, under which the empty string counts as no token. *)
Definition holds (w : World) (key token : string) : Prop :=
  store w !! key = Some token /\ token <> "".

Definition holds_none (w : World) (key : string) : Prop :=
  store w !! key = None \/ store w !! key = Some "".

(** The request [error] belongs to is already marked as retried. *)
Definition already_retried (w : World) (error : Thrown) : Prop :=
  exists l c, config_of error = Some l /\ heap w !! l = Some c /\ _retry c = true.

(** [error] is a 401 on the request object at [l], not yet retried. *)
Definition unauthorized_first_time (w : World) (error : Thrown) (l : loc) (c : Config) : Prop :=
  status_is 401 error = true /\ config_of error = Some l /\
  heap w !! l = Some c /\ _retry c = false.

(** The world once [originalRequest._retry = true] has run on the object at
    [l]. *)
Definition marked (l : loc) (w : World) : World :=
  record (EvMarkRetry l) (with_heap (alter set_retry_flag l (heap w)) w).

(** The rest of the response interceptor once the request is marked: the
    [try]/[catch] around the refresh, then the replay or the rejection. *)
Definition after_mark (env : Env) (replay : Config -> M Response) (error : Thrown)
    (originalRequest : option loc) : M Response :=
  r <- try_catch (refresh_tokens env originalRequest) (clear_tokens env) ;;
  match r with
  | Some c => replay c
  | None => console_error "API Error:" ;;; throw error
  end.

(** The response body of a token endpoint. *)
Definition token_body (access refresh : string) : Value :=
  VObject [("accessToken", VString access); ("refreshToken", VString refresh)].

(** The request that the refresh step posts. *)
Definition refresh_request (refreshToken : string) : Config :=
  mkConfig None (API_BASE_URL ++ "/auth/refresh") POST ∅
           (JsonBody (refresh_payload refreshToken)) false.

(** The [try] block from the destructuring of the refresh response on. *)
Definition persist_tokens (env : Env) (originalRequest : option loc) (response : Response)
  : M (option Config) :=
  tokens <- destructure_tokens (data response) ;;
  let '(accessToken, newRefreshToken) := tokens in
  setItemAsync env "accessToken" accessToken ;;;
  setItemAsync env "refreshToken" newRefreshToken ;;;
  assign_authorization originalRequest ("Bearer " ++ template_of accessToken) ;;;
  c <- read_config originalRequest ;;
  ret (Some c).

(** The world once the refresh token has been read and the refresh endpoint
    has answered [reply]. *)
Definition after_refresh_call (w : World) (rt : string) (reply : Reply) : World :=
  tick (record (EvPost (refresh_request rt) reply)
          (with_heap (heap w ++ [refresh_request rt])
             (tick (record (EvStore (GetItem "refreshToken") true) w)))).

(** The token pair is wholly present or wholly absent. *)
Definition both_or_neither (s : gmap string string) : Prop :=
  is_Some (s !! "accessToken") <-> is_Some (s !! "refreshToken").

(** What the request interceptor makes of a request in world [w]. *)
Definition intercepted (env : Env) (w : World) (c : Config) : Config :=
  if store_fault env (clock w) (GetItem "accessToken") then c
  else
    match store w !! "accessToken" with
    | Some t => if String.eqb t "" then c else set_header "Authorization" ("Bearer " ++ t) c
    | None => c
    end.

(** The events of the request interceptor, newest first. *)
Definition interceptor_events (env : Env) (w : World) : list Event :=
  if store_fault env (clock w) (GetItem "accessToken")
  then [EvConsoleError "Error getting token:"; EvStore (GetItem "accessToken") false]
  else [EvStore (GetItem "accessToken") true].

Definition is_string (v : Value) : bool :=
  match v with
  | VString _ => true
  | _ => false
  end.

(** A write of [value] under [key] at time [t] throws: the store fails, or
    the value is not a string. *)
Definition write_fails (env : Env) (t : nat) (key : string) (value : Value) : bool :=
  store_fault env t (SetItem key value) || negb (is_string value).

(** The refresh attempt fails after the refresh token [rt] was read in world
    [w]: the endpoint rejects the call, or its answer cannot be persisted,
    because the store fails on one of the two writes or because the answer
    has no string to write (the destructuring or the write throws). *)
Inductive refresh_attempt_fails (env : Env) (w : World) (rt : string) : Prop :=
| endpoint_rejects (r : option Response) (msg : string) :
    transport env (S (clock w)) (refresh_request rt) = Reject r msg ->
    refresh_attempt_fails env w rt
| access_write_throws (resp : Response) :
    transport env (S (clock w)) (refresh_request rt) = Resolve resp ->
    write_fails env (2 + clock w) "accessToken" (get_field "accessToken" (data resp)) = true ->
    refresh_attempt_fails env w rt
| refresh_write_throws (resp : Response) :
    transport env (S (clock w)) (refresh_request rt) = Resolve resp ->
    write_fails env (2 + clock w) "accessToken" (get_field "accessToken" (data resp)) = false ->
    write_fails env (3 + clock w) "refreshToken" (get_field "refreshToken" (data resp)) = true ->
    refresh_attempt_fails env w rt.

(** The store carries out every delete it is asked for. *)
Definition deletes_succeed (env : Env) : Prop :=
  forall t key, store_fault env t (DeleteItem key) = false.

(** The store carries out every write of a string it is asked for. *)
Definition writes_succeed (env : Env) : Prop :=
  forall t key value, store_fault env t (SetItem key value) = false.

(** ** Concrete scenarios *)

Definition signed_out : Session := mkSession false None None false.

Definition reliable_store : nat -> StoreOp -> bool := fun _ _ => false.

Definition stadiums : Config := mkConfig None "/stadiums" GET ∅ NoBody false.

Definition unauthorized : Reply :=
  Reject (Some (mkResponse 401 VNull)) "Request failed with status code 401".

Definition server_error : Reply :=
  Reject (Some (mkResponse 500 VNull)) "Request failed with status code 500".

(** The stored pair of the specification's scenario. *)
Definition store_A1_R1 : gmap string string :=
  {[ "accessToken" := "A1"; "refreshToken" := "R1" ]}.

(** A world in which the request [stadiums] has been sent with the stored
    access token. *)
Definition world_A1_R1 : World :=
  mkWorld store_A1_R1
          [set_header "Authorization" "Bearer A1" (mergeConfig api_defaults stadiums)]
          2 [] signed_out.

(** The same world once the request has been marked as retried. *)
Definition world_retried : World :=
  mkWorld store_A1_R1
          [set_retry_flag (set_header "Authorization" "Bearer A1" (mergeConfig api_defaults stadiums))]
          2 [] signed_out.

Definition error_on_first (reply_status : Z) : Thrown :=
  AxiosErr (mkAxiosError (Some 0) (Some (mkResponse reply_status VNull)) "Request failed").

(** A server that answers every request with status 500. *)
Definition failing_server : Env := mkEnv reliable_store (fun _ _ => server_error).

(** The specification's scenario: the refresh endpoint maps "R1" to the pair
    "A2", "R2"; any other request is authorized only with "Bearer A2". *)
Definition rotating_server : Env :=
  mkEnv reliable_store
        (fun _ c =>
           if String.eqb (url c) (API_BASE_URL ++ "/auth/refresh")
           then Resolve (mkResponse 200 (token_body "A2" "R2"))
           else match headers c !! "Authorization" with
                | Some "Bearer A2" => Resolve (mkResponse 200 (VString "stadium list"))
                | _ => unauthorized
                end).

(** A store that holds an access token but no refresh token. *)
Definition world_A1_only : World :=
  mkWorld {[ "accessToken" := "A1" ]}
          [set_header "Authorization" "Bearer A1" (mergeConfig api_defaults stadiums)]
          2 [] signed_out.

(** A store whose deletes throw, behind a server that answers 500. *)
Definition deletes_throw : nat -> StoreOp -> bool :=
  fun _ op => match op with DeleteItem _ => true | _ => false end.

Definition stuck_store : Env := mkEnv deletes_throw (fun _ _ => server_error).

(** A request that comes with an Authorization header of its own, and a world
    with an empty store. *)
Definition signed_request : Config :=
  mkConfig None "/stadiums" GET {[ "Authorization" := "Basic c2NvdXQ6cGFzcw==" ]} NoBody false.

Definition world_empty : World := mkWorld ∅ [] 0 [] signed_out.

(** The stored pair, before any request. *)
Definition world_start : World := mkWorld store_A1_R1 [] 0 [] signed_out.

(** The scenario server behind a store whose reads of the access token
    throw. *)
Definition access_unreadable : nat -> StoreOp -> bool :=
  fun _ op => match op with GetItem "accessToken" => true | _ => false end.

Definition blind_pipeline : Env :=
  mkEnv access_unreadable (transport rotating_server).

(** A server with a login endpoint that issues the pair "A1", "R1". *)
Definition auth_server : Env :=
  mkEnv reliable_store
        (fun t c =>
           if String.eqb (url c) "/auth/login"
           then Resolve (mkResponse 200 (token_body "A1" "R1"))
           else transport rotating_server t c).

Definition player : authService.LoginRequest :=
  authService.mkLoginRequest "player@footbook.app" "offside".

(** A store that refuses to write the refresh token. *)
Definition refresh_write_refused : nat -> StoreOp -> bool :=
  fun _ op => match op with SetItem "refreshToken" _ => true | _ => false end.

Definition half_writing_store : Env := mkEnv refresh_write_refused (fun _ _ => server_error).

Definition pair_A1_R1 : AuthProvider.TokenPair := AuthProvider.mkTokenPair "A1" "R1".

(** A server that issues new pairs but answers 401 to every other request. *)
Definition stubborn_server : Env :=
  mkEnv reliable_store
        (fun _ c =>
           if String.eqb (url c) (API_BASE_URL ++ "/auth/refresh")
           then Resolve (mkResponse 200 (token_body "A2" "R2"))
           else unauthorized).

(** ** Relations between the worlds of a run *)

(** [m] takes every world to one that [R] relates to it. *)
Definition preserves {A : Type} (R : World -> World -> Prop) (m : M A) : Prop :=
  forall w, R w (snd (m w)).

(** The two keys of the credential store that the code uses. *)
Definition token_key (key : string) : Prop :=
  key = "accessToken" \/ key = "refreshToken".

(** An update of a request object that leaves a set [_retry] flag set. *)
Definition keeps_flag (f : Config -> Config) : Prop :=
  forall c, _retry c = true -> _retry (f c) = true.

(** A relation that holds along every elementary change of the world that
    the pipeline makes: a tick, a trace entry, a write or a delete of a token
    key, a new request object, an update of a request object that keeps the
    flag. *)
Record stable (R : World -> World -> Prop) : Prop := mkStable {
  stable_refl : forall w, R w w;
  stable_trans : forall w1 w2 w3, R w1 w2 -> R w2 w3 -> R w1 w3;
  stable_tick : forall w, R w (tick w);
  stable_record : forall e w, R w (record e w);
  stable_write : forall key s w, token_key key -> R w (with_store (<[key := s]> (store w)) w);
  stable_delete : forall key w, token_key key -> R w (with_store (delete key (store w)) w);
  stable_alloc : forall c w, R w (with_heap (heap w ++ [c]) w);
  stable_alter : forall f l w, keeps_flag f -> R w (with_heap (alter f l (heap w)) w)
}.

(** The React state of [AuthProvider] is the same. *)
Definition same_session (w w' : World) : Prop := session w' = session w.

(** Every key of the store other than the two token keys reads the same. *)
Definition same_other_keys (w w' : World) : Prop :=
  forall key, ~ token_key key -> store w' !! key = store w !! key.

(** Every request object that is marked as retried still exists and is still
    marked. *)
Definition marks_kept (w w' : World) : Prop :=
  forall l c, heap w !! l = Some c -> _retry c = true ->
              exists c', heap w' !! l = Some c' /\ _retry c' = true.

(** The network's answer is a rejection with status 401. *)
Definition is_401 (reply : Reply) : bool :=
  match reply with
  | Reject (Some r) _ => Z.eqb (status r) 401
  | _ => false
  end.

(** ** components/ui/Picker.tsx *)

Module Picker.

Record Item : Type := mkItem {
  label : string;
  value : string
}.

(** [items.find(item => item.value === value)] *)
Definition selectedItem (items : list Item) (current : string) : option Item :=
  find (fun item => String.eqb (value item) current) items.

(** The text of the closed picker: [selectedItem ? selectedItem.label :
    placeholder]. *)
Definition shown (items : list Item) (placeholder current : string) : string :=
  match selectedItem items current with
  | Some item => label item
  | None => placeholder
  end.

(** The text is drawn in the placeholder style: [!selectedItem]. *)
Definition placeholder_style (items : list Item) (current : string) : bool :=
  match selectedItem items current with
  | Some _ => false
  | None => true
  end.

(** An option of the list carries the check mark: [item.value === value]. *)
Definition checked (current : string) (item : Item) : bool :=
  String.eqb (value item) current.

(** The picker is a controlled component: the value lives in the form of the
    parent, which [onValueChange] updates; [modalVisible] is its own state. *)
Record State : Type := mkState {
  current : string;
  modalVisible : bool
}.

(** Pressing the closed picker. *)
Definition open (s : State) : State := mkState (current s) true.

(** [onRequestClose] and the close button. *)
Definition close (s : State) : State := mkState (current s) false.

(** Pressing an option: [onValueChange(item.value); setModalVisible(false)]. *)
Definition press (item : Item) (s : State) : State := mkState (value item) false.

End Picker.

(** The options of the skill level picker of the signup screen, and the
    default value of the field in the form. *)
Definition skillLevelOptions : list Picker.Item :=
  [Picker.mkItem "Beginner" "Beginner";
   Picker.mkItem "Intermediate" "Intermediate";
   Picker.mkItem "Advanced" "Advanced"].

(** ** contexts/AuthContext.tsx, as the screens call it *)

(** The screens hand [login] the body of the response, whatever it is at run
    time; the property reads [tokens.accessToken] and [tokens.refreshToken]
    happen inside the [try] block. *)
Module AuthProviderRuntime.

(** [v.k] where [v] may be [undefined] or [null]. *)
Definition property (v : Value) (k : string) : M Value :=
  match v with
  | VUndefined | VNull => throw (TypeErr "Cannot read properties of undefined")
  | _ => ret (get_field k v)
  end.

(** The state setters receive what was just written, a string. *)
Definition as_state (v : Value) : option string :=
  match v with
  | VString s => Some s
  | _ => None
  end.

Section Provider.

Variable env : Env.

Definition login (tokens : Value) : M unit :=
  try_catch
    (access <- property tokens "accessToken" ;;
     setItemAsync env "accessToken" access ;;;
     refresh <- property tokens "refreshToken" ;;
     setItemAsync env "refreshToken" refresh ;;;
     s <- AuthProvider.get_session ;;
     AuthProvider.set_session (mkSession true (as_state access) (as_state refresh) (loading s)))
    (fun error => console_error "Error storing tokens:" ;;; throw error).

End Provider.

End AuthProviderRuntime.

(** ** app/auth/login.tsx *)

Module LoginScreen.

(** The state of the screen and the alerts it has shown, oldest first. *)
Record ScreenState : Type := mkScreen {
  loading : bool;
  alerts : list (string * Value)
}.

(** JavaScript truthiness, for the left operand of [||]. *)
Definition truthy (v : Value) : bool :=
  match v with
  | VUndefined | VNull => false
  | VString s => negb (String.eqb s "")
  | VNumber n => negb (Z.eqb n 0)
  | VObject _ => true
  end.

(** [error.response?.data?.message] *)
Definition server_message (error : Thrown) : Value :=
  match response_of error with
  | Some r => get_field "message" (data r)
  | None => VUndefined
  end.

Definition fallback : string := "An error occurred during login. Please try again.".

(** [error.response?.data?.message || '...'] *)
Definition alert_text (error : Thrown) : Value :=
  if truthy (server_message error) then server_message error else VString fallback.

Section Screen.

Variable env : Env.

(** The body of the [try] block after [setLoading(true)]. *)
Definition sign_in (fuel : nat) (data : authService.LoginRequest) : M unit :=
  response <- authService.login env fuel data ;;
  AuthProviderRuntime.login env response.

(** [try { setLoading(true); ... } catch (error) { Alert.alert(...) }
    finally { setLoading(false) }]. Nothing between [setLoading(true)] and
    the end of the [try] block touches the state of the screen. *)
Definition onSubmit (fuel : nat) (data : authService.LoginRequest)
    (s : ScreenState) (w : World) : Outcome unit * ScreenState * World :=
  let s1 := mkScreen true (alerts s) in
  match sign_in fuel data w with
  | (Return _, w') => (Return tt, mkScreen false (alerts s1), w')
  | (Throw error, w') =>
      (Return tt, mkScreen false (alerts s1 ++ [("Login Failed", alert_text error)]), w')
  | (OutOfFuel, w') => (OutOfFuel, s1, w')
  end.

End Screen.

End LoginScreen.

(** ** More concrete scenarios *)

(** A store with a third key next to the pair. *)
Definition world_with_theme : World :=
  mkWorld (<["theme" := "dark"]> store_A1_R1) [] 0 [] signed_out.

(** A store whose reads of the refresh token throw, behind the scenario
    server. *)
Definition refresh_unreadable : nat -> StoreOp -> bool :=
  fun _ op => match op with GetItem "refreshToken" => true | _ => false end.

Definition forgetful_pipeline : Env :=
  mkEnv refresh_unreadable (transport rotating_server).

(** A server that answers 401 to everything, the refresh call included. *)
Definition expired_server : Env := mkEnv reliable_store (fun _ _ => unauthorized).

Definition rookie : authService.SignupRequest :=
  authService.mkSignupRequest "Ada" "Hegerberg" "ada@footbook.app" "+4700000000" "offside"
                              authService.Advanced (Some "file:///profile.jpg").

(** A server with a signup endpoint that issues the pair "A1", "R1". *)
Definition signup_server : Env :=
  mkEnv reliable_store
        (fun t c =>
           if String.eqb (url c) "/auth/signup"
           then Resolve (mkResponse 201 (token_body "A1" "R1"))
           else transport rotating_server t c).

(** The state [AuthProvider] starts with when the app is launched: the
    initial values of its four [useState] calls. The store outlives the
    launch, the React state does not. *)
Definition initial_session : Session := mkSession false None None true.

Definition relaunch (w : World) : World := with_session initial_session w.

(** No store call throws. *)
Definition store_reliable (env : Env) : Prop :=
  forall t op, store_fault env t op = false.

(** A login endpoint that turns the credentials down and says why. *)
Definition wrong_password : Reply :=
  Reject (Some (mkResponse 401 (VObject [("message", VString "Invalid credentials")])))
         "Request failed with status code 401".

Definition strict_server : Env := mkEnv reliable_store (fun _ _ => wrong_password).

(** A login endpoint that answers 200 with an empty body. *)
Definition hollow_server : Env :=
  mkEnv reliable_store (fun _ _ => Resolve (mkResponse 200 VNull)).

Definition idle_screen : LoginScreen.ScreenState := LoginScreen.mkScreen false [].


(** * Properties *)

(** ** Basic facts *)

Lemma events_between_app (w w' : World) (new : list Event) :
  trace w' = (new ++ trace w)%list -> events_between w w' = rev new.
Proof.
  intros H. unfold events_between. rewrite H, length_app.
  replace (length new + length (trace w) - length (trace w)) with (length new) by lia.
  by rewrite take_app_length.
Qed.

Lemma intercepted_retry (env : Env) (w : World) (c : Config) :
  _retry (intercepted env w c) = _retry c.
Proof.
  unfold intercepted. repeat case_match; reflexivity.
Qed.

Lemma mergeConfig_retry (d c : Config) : _retry (mergeConfig d c) = _retry c.
Proof. reflexivity. Qed.

Section Facts.

Variable env : Env.

Lemma request_interceptor_run (l : loc) (w : World) :
  request_interceptor env l w =
    (Return l,
     mkWorld (store w) (alter (intercepted env w) l (heap w)) (S (clock w))
             (interceptor_events env w ++ trace w) (session w)).
Proof.
  unfold request_interceptor, bind, try_catch, getItemAsync, intercepted, interceptor_events.
  destruct (store_fault env (clock w) (GetItem "accessToken")) eqn:Hf; cbn.
  - by rewrite list_alter_id.
  - destruct (store w !! "accessToken") as [t|] eqn:Ht; cbn.
    + destruct (String.eqb t "") eqn:Hempty; cbn.
      * by rewrite list_alter_id.
      * reflexivity.
    + by rewrite list_alter_id.
Qed.

Lemma intercepted_ext (w1 w2 : World) :
  store w1 = store w2 -> clock w1 = clock w2 ->
  intercepted env w1 = intercepted env w2.
Proof. intros Hs Hc. unfold intercepted. by rewrite Hs, Hc. Qed.

Lemma interceptor_events_ext (w1 w2 : World) :
  clock w1 = clock w2 -> interceptor_events env w1 = interceptor_events env w2.
Proof. intros Hc. unfold interceptor_events. by rewrite Hc. Qed.

(** One call of [api]: the request is merged, intercepted and sent; the
    response interceptor sees a rejection. *)
Lemma api_run (fuel : nat) (cfg : Config) (w : World) :
  let c := intercepted env w (mergeConfig api_defaults cfg) in
  let l := length (heap w) in
  let reply := transport env (S (clock w)) c in
  let w1 := mkWorld (store w) (heap w ++ [c]) (S (S (clock w)))
                    (EvDispatch l c reply :: interceptor_events env w ++ trace w)
                    (session w) in
  api env (S fuel) cfg w =
    match reply with
    | Resolve r => (Return r, w1)
    | Reject r msg =>
        response_error_interceptor env (api env fuel)
          (AxiosErr (mkAxiosError (Some l) r msg)) w1
    end.
Proof.
  cbn zeta. cbn [api]. unfold bind at 1. unfold alloc.
  unfold bind at 1. rewrite request_interceptor_run.
  set (w0 := with_heap (heap w ++ [mergeConfig api_defaults cfg]) w).
  rewrite (intercepted_ext w0 w), (interceptor_events_ext w0 w) by reflexivity.
  subst w0. cbn [with_heap store heap clock trace session].
  rewrite alter_app_r_alt by (cbn; lia).
  replace (length (heap w) - length (heap w)) with 0 by lia. cbn [alter list_alter].
  unfold try_catch, dispatchRequest. cbn [store heap clock trace session].
  rewrite list_lookup_middle by reflexivity.
  destruct (transport env (S (clock w)) (intercepted env w (mergeConfig api_defaults cfg)));
    reflexivity.
Qed.

End Facts.

(** ** Errors that are passed through *)

Section PassThrough.

Variable env : Env.

(** When the guard of the response interceptor is false, the interceptor logs
    and rejects with the error it was given; nothing else happens. *)
Lemma pass_through (replay : Config -> M Response) (error : Thrown) (w : World) :
  status_is 401 error = false \/ already_retried w error ->
  response_error_interceptor env replay error w =
    (Throw error, record (EvConsoleError "API Error:") w).
Proof.
  intros H. unfold response_error_interceptor, bind.
  destruct (status_is 401 error) eqn:Hs.
  - destruct H as [H | (l & c & Hl & Hc & Hr)]; [discriminate |].
    unfold read_config. rewrite Hl. cbn. rewrite Hc. cbn. rewrite Hr. reflexivity.
  - reflexivity.
Qed.

End PassThrough.

(** C6. An error whose status is not 401, and a 401 on a request already
    marked as retried, is rejected to the caller as the same error value; the
    interceptor calls neither the refresh endpoint nor the instance (whatever
    function [replay] stands for the instance), and the only event is the
    console message. *)
Theorem other_errors_rejected_unchanged
    (env : Env) (replay : Config -> M Response) (error : Thrown) (w : World) :
  status_is 401 error = false \/ already_retried w error ->
  let '(out, w') := response_error_interceptor env replay error w in
  out = Throw error /\
  refresh_calls (events_between w w') = [] /\
  sent (events_between w w') = [] /\
  events_between w w' = [EvConsoleError "API Error:"].
Proof.
  intros H. rewrite (pass_through env replay error w H).
  rewrite (events_between_app w _ [EvConsoleError "API Error:"]) by reflexivity.
  repeat split.
Qed.

Lemma other_errors_rejected_unchanged_witness :
  let '(out, w') :=
    response_error_interceptor failing_server (api failing_server 1)
                               (error_on_first 500) world_A1_R1 in
  out = Throw (error_on_first 500) /\
  refresh_calls (events_between world_A1_R1 w') = [] /\
  sent (events_between world_A1_R1 w') = [] /\
  events_between world_A1_R1 w' = [EvConsoleError "API Error:"].
Proof.
  apply (other_errors_rejected_unchanged failing_server (api failing_server 1)
           (error_on_first 500) world_A1_R1).
  left. reflexivity.
Defined.

(** C10. On the same path (an error that is not a 401, or a 401 on a request
    already marked as retried) the credential store is left as it was, and so
    are the request objects. *)
Theorem pass_through_leaves_store
    (env : Env) (replay : Config -> M Response) (error : Thrown) (w : World) :
  status_is 401 error = false \/ already_retried w error ->
  let w' := snd (response_error_interceptor env replay error w) in
  store w' = store w /\ heap w' = heap w /\
  store_calls (events_between w w') = [].
Proof.
  intros H. rewrite (pass_through env replay error w H). cbn [snd].
  rewrite (events_between_app w _ [EvConsoleError "API Error:"]) by reflexivity.
  repeat split.
Qed.

Lemma pass_through_leaves_store_witness :
  let w' := snd (response_error_interceptor failing_server (api failing_server 1)
                   (error_on_first 401) world_retried) in
  store w' = store world_retried /\ heap w' = heap world_retried /\
  store_calls (events_between world_retried w') = [].
Proof.
  apply (pass_through_leaves_store failing_server (api failing_server 1)
           (error_on_first 401) world_retried).
  right. exists 0, (set_retry_flag (set_header "Authorization" "Bearer A1"
                                      (mergeConfig api_defaults stadiums))).
  repeat split.
Defined.

(** ** The refresh path, step by step *)

Ltac wsimpl :=
  cbn [tick record with_store with_heap with_session marked
       clock store heap trace session fst snd].

(** The events of a run, read off the final trace. *)
Ltac trace_prefix t base :=
  lazymatch t with
  | base => constr:(@nil Event)
  | ?e :: ?t' => let p := trace_prefix t' base in constr:(e :: p)
  end.

Ltac read_events :=
  match goal with
  | |- context [events_between ?w ?w'] =>
      let t := eval cbn [tick record with_store with_heap with_session marked
                         clock store heap trace session app] in (trace w') in
      let p := trace_prefix t (trace w) in
      rewrite (events_between_app w w' p) by reflexivity
  end.

Section RefreshPath.

Variable env : Env.

(** A first 401 marks the request and goes on from the marked world. *)
Lemma first_401_marks (replay : Config -> M Response) (error : Thrown)
    (l : loc) (c : Config) (w : World) :
  unauthorized_first_time w error l c ->
  response_error_interceptor env replay error w =
    after_mark env replay error (Some l) (marked l w).
Proof.
  intros (Hs & Hl & Hc & Hr).
  unfold response_error_interceptor, after_mark, bind at 1.
  rewrite Hs. unfold bind at 1, read_config. rewrite Hl. cbn [mbind option_bind].
  rewrite Hc. cbn [ret]. rewrite Hr. cbn [negb].
  unfold bind at 1 2, mark_retry. reflexivity.
Qed.

Lemma marked_lookup (l : loc) (c : Config) (w : World) :
  heap w !! l = Some c -> heap (marked l w) !! l = Some (set_retry_flag c).
Proof.
  intros H. wsimpl. by rewrite list_lookup_alter_eq, H.
Qed.

(** A request that is already marked is sent once more and settles with the
    network's answer, whatever that is. *)
Lemma replay_run (fuel : nat) (cfg : Config) (w : World) :
  _retry cfg = true ->
  let c := intercepted env w (mergeConfig api_defaults cfg) in
  let l := length (heap w) in
  let reply := transport env (S (clock w)) c in
  let w1 := mkWorld (store w) (heap w ++ [c]) (S (S (clock w)))
                    (EvDispatch l c reply :: interceptor_events env w ++ trace w)
                    (session w) in
  api env (S fuel) cfg w =
    (settle l reply,
     match reply with
     | Resolve _ => w1
     | Reject _ _ => record (EvConsoleError "API Error:") w1
     end).
Proof.
  intros Hr. cbn zeta. rewrite api_run.
  destruct (transport env (S (clock w)) (intercepted env w (mergeConfig api_defaults cfg)))
    as [r | r msg] eqn:Hreply; [reflexivity |].
  rewrite pass_through; [reflexivity |].
  right. eexists _, _. cbn [config_of config heap].
  split; [reflexivity |]. split; [apply list_lookup_middle; reflexivity |].
  by rewrite intercepted_retry, mergeConfig_retry.
Qed.

(** The [try] block when everything goes through. *)
Lemma refresh_success_run (l : loc) (c : Config) (w : World)
    (rt : string) (resp : Response) (A2 R2 : string) :
  heap w !! l = Some c ->
  store_fault env (clock w) (GetItem "refreshToken") = false ->
  holds w "refreshToken" rt ->
  transport env (S (clock w)) (refresh_request rt) = Resolve resp ->
  get_field "accessToken" (data resp) = VString A2 ->
  get_field "refreshToken" (data resp) = VString R2 ->
  store_fault env (2 + clock w) (SetItem "accessToken" (VString A2)) = false ->
  store_fault env (3 + clock w) (SetItem "refreshToken" (VString R2)) = false ->
  try_catch (refresh_tokens env (Some l)) (clear_tokens env) w =
    (Return (Some (set_header "Authorization" ("Bearer " ++ A2) c)),
     mkWorld (<["refreshToken" := R2]> (<["accessToken" := A2]> (store w)))
             (alter (set_header "Authorization" ("Bearer " ++ A2)) l (heap w)
                ++ [refresh_request rt])
             (4 + clock w)
             ([EvStore (SetItem "refreshToken" (VString R2)) true;
               EvStore (SetItem "accessToken" (VString A2)) true;
               EvPost (refresh_request rt) (Resolve resp);
               EvStore (GetItem "refreshToken") true] ++ trace w)
             (session w)).
Proof.
  intros Hc Hget [Hrt Hne] Hpost Ha Hr Hset1 Hset2.
  assert (Hlt : l < length (heap w)) by (eapply lookup_lt_Some; eassumption).
  apply String.eqb_neq in Hne. cbn [Nat.add] in Hset1, Hset2.
  unfold try_catch, refresh_tokens, bind at 1, getItemAsync.
  rewrite Hget, Hrt, Hne. wsimpl.
  unfold bind at 1, axios_post. wsimpl.
  fold (refresh_request rt). rewrite Hpost.
  unfold bind at 1, destructure_tokens.
  destruct (data resp) as [| | s | n | fields] eqn:Hd; try discriminate Ha.
  cbn [ret]. rewrite Ha, Hr.
  unfold bind at 1, setItemAsync. wsimpl. rewrite Hset1. wsimpl.
  unfold bind at 1, setItemAsync. wsimpl. rewrite Hset2. wsimpl.
  unfold bind at 1, assign_authorization. wsimpl.
  unfold bind at 1, read_config. wsimpl. cbn [mbind option_bind template_of].
  rewrite list_lookup_alter_eq, (lookup_app_l_Some _ _ _ _ Hc). cbn [fmap option_fmap option_map].
  rewrite alter_app_l by exact Hlt. reflexivity.
Qed.

End RefreshPath.

(** ** A first 401 with a refresh that goes through *)

Lemma intercepted_bearer (env : Env) (w : World) (c : Config) (token : string) :
  store w !! "accessToken" = Some token ->
  headers c !! "Authorization" = Some ("Bearer " ++ token) ->
  headers (intercepted env w c) !! "Authorization" = Some ("Bearer " ++ token).
Proof.
  intros Hs Hc. unfold intercepted. rewrite Hs.
  destruct (store_fault env (clock w) (GetItem "accessToken")); [exact Hc |].
  destruct (String.eqb token ""); [exact Hc |].
  cbn [headers set_header]. apply lookup_insert_eq.
Qed.

Lemma intercepted_request (env : Env) (w : World) (c : Config) :
  url (intercepted env w c) = url c /\ method (intercepted env w c) = method c /\
  body (intercepted env w c) = body c /\ baseURL (intercepted env w c) = baseURL c.
Proof.
  unfold intercepted. repeat case_match; repeat split.
Qed.

(** C2. A 401 on a request not yet retried, with a refresh token in the store
    and a refresh endpoint that answers with a new pair: both new tokens are
    persisted, the refresh endpoint is called once with the stored refresh
    token, the request is sent again exactly once, marked as retried,
    otherwise the same request, with the header Authorization: Bearer <new
    access token>, and the caller gets what that one send settles with, a
    response or an error.

    The hypotheses follow the steps of the refresh in time: the read of the
    refresh token at [clock w], the call of the endpoint at the next tick,
    the two writes at the two ticks after. That the store carries out these
    three calls is part of the premise; a store call that throws there is a
    failed refresh. The read of the access token before the resend may go
    either way. *)
Theorem refresh_persists_and_replays_once
    (env : Env) (fuel : nat) (error : Thrown) (l : loc) (cfg : Config) (w : World)
    (rt : string) (resp : Response) (A2 R2 : string) :
  unauthorized_first_time w error l cfg ->
  store_fault env (clock w) (GetItem "refreshToken") = false ->
  holds w "refreshToken" rt ->
  transport env (S (clock w)) (refresh_request rt) = Resolve resp ->
  get_field "accessToken" (data resp) = VString A2 ->
  get_field "refreshToken" (data resp) = VString R2 ->
  store_fault env (2 + clock w) (SetItem "accessToken" (VString A2)) = false ->
  store_fault env (3 + clock w) (SetItem "refreshToken" (VString R2)) = false ->
  let '(out, w') := response_error_interceptor env (api env (S fuel)) error w in
  let es := events_between w w' in
  store w' = <["refreshToken" := R2]> (<["accessToken" := A2]> (store w)) /\
  store w' !! "accessToken" = Some A2 /\
  store w' !! "refreshToken" = Some R2 /\
  refresh_calls es = [refresh_request rt] /\
  exists l' c reply,
    dispatches es = [(l', c, reply)] /\
    out = settle l' reply /\
    headers c !! "Authorization" = Some ("Bearer " ++ A2) /\
    _retry c = true /\
    url c = url cfg /\ method c = method cfg /\ body c = body cfg.
Proof.
  intros Hfirst Hget Hrt Hpost Ha Hr Hset1 Hset2.
  pose proof Hfirst as (_ & _ & Hc & _).
  rewrite (first_401_marks env _ error l cfg w Hfirst).
  unfold after_mark, bind at 1.
  rewrite (refresh_success_run env l (set_retry_flag cfg) (marked l w) rt resp A2 R2);
    [| by apply marked_lookup | assumption ..].
  set (c' := set_header "Authorization" ("Bearer " ++ A2) (set_retry_flag cfg)).
  rewrite replay_run by reflexivity. wsimpl.
  match goal with
  | |- context [transport env ?t (intercepted env ?ww ?m)] =>
      set (w4 := ww); set (c := intercepted env w4 m); set (reply := transport env t c)
  end.
  assert (Hstore : store w4 !! "accessToken" = Some A2).
  { subst w4. wsimpl. rewrite lookup_insert_ne by discriminate. apply lookup_insert_eq. }
  assert (Hhdr : headers c !! "Authorization" = Some ("Bearer " ++ A2)).
  { subst c. apply intercepted_bearer; [exact Hstore |].
    cbn [mergeConfig headers c' set_header set_retry_flag].
    apply lookup_union_Some_l, lookup_insert_eq. }
  assert (Hsame : _retry c = true /\ url c = url cfg /\ method c = method cfg
                  /\ body c = body cfg).
  { subst c. rewrite intercepted_retry.
    destruct (intercepted_request env w4 (mergeConfig api_defaults c')) as (-> & -> & -> & _).
    repeat split. }
  split; [| split; [| split; [| split]]].
  - destruct reply; reflexivity.
  - destruct reply; exact Hstore.
  - destruct reply; wsimpl; apply lookup_insert_eq.
  - unfold interceptor_events.
    destruct reply, (store_fault env (clock w4) (GetItem "accessToken"));
      subst w4; read_events; reflexivity.
  - exists (length (heap w4)), c, reply. split; [| split; [| split]].
    + unfold interceptor_events.
      destruct reply eqn:Hreply, (store_fault env (clock w4) (GetItem "accessToken"));
        subst w4; read_events; cbn; rewrite ?Hreply; reflexivity.
    + reflexivity.
    + exact Hhdr.
    + exact Hsame.
Qed.

Lemma refresh_persists_and_replays_once_witness :
  let '(out, w') :=
    response_error_interceptor rotating_server (api rotating_server 1)
                               (error_on_first 401) world_A1_R1 in
  let es := events_between world_A1_R1 w' in
  store w' = <["refreshToken" := "R2"]> (<["accessToken" := "A2"]> (store world_A1_R1)) /\
  store w' !! "accessToken" = Some "A2" /\
  store w' !! "refreshToken" = Some "R2" /\
  refresh_calls es = [refresh_request "R1"] /\
  exists l' c reply,
    dispatches es = [(l', c, reply)] /\
    out = settle l' reply /\
    headers c !! "Authorization" = Some ("Bearer " ++ "A2") /\
    _retry c = true /\
    url c = url (set_header "Authorization" "Bearer A1" (mergeConfig api_defaults stadiums)) /\
    method c = method (set_header "Authorization" "Bearer A1" (mergeConfig api_defaults stadiums)) /\
    body c = body (set_header "Authorization" "Bearer A1" (mergeConfig api_defaults stadiums)).
Proof.
  apply (refresh_persists_and_replays_once rotating_server 0 (error_on_first 401) 0
           (set_header "Authorization" "Bearer A1" (mergeConfig api_defaults stadiums))
           world_A1_R1 "R1" (mkResponse 200 (token_body "A2" "R2")) "A2" "R2").
  - repeat split.
  - reflexivity.
  - split; [reflexivity | discriminate].
  - reflexivity.
  - reflexivity.
  - reflexivity.
  - reflexivity.
  - reflexivity.
Defined.

(** The scenario of the specification, evaluated: the store ends with the new
    pair, and the one replayed request carries Authorization: Bearer A2 and is
    answered. *)
Example scenario_A1_R1 :
  let '(out, w') :=
    response_error_interceptor rotating_server (api rotating_server 1)
                               (error_on_first 401) world_A1_R1 in
  out = Return (mkResponse 200 (VString "stadium list")) /\
  store w' !! "accessToken" = Some "A2" /\
  store w' !! "refreshToken" = Some "R2" /\
  map (fun c => headers c !! "Authorization") (sent (events_between world_A1_R1 w'))
    = [Some "Bearer A2"].
Proof. vm_compute. repeat split. Qed.

(** The same scenario from the caller's side: one call of the instance, two
    sends, the second with the new token. *)
Example scenario_A1_R1_whole_call :
  let '(out, w') := api rotating_server 2 stadiums world_start in
  out = Return (mkResponse 200 (VString "stadium list")) /\
  store w' !! "accessToken" = Some "A2" /\
  store w' !! "refreshToken" = Some "R2" /\
  map (fun c => headers c !! "Authorization") (sent (events_between world_start w'))
    = [Some "Bearer A1"; Some "Bearer A2"] /\
  refresh_calls (events_between world_start w') = [refresh_request "R1"].
Proof. vm_compute. repeat split. Qed.

(** ** A first 401 without a refresh token *)

(** The claim C4 as stated fails: with an access token but no refresh token in
    the store, a first 401 is passed on to the caller and the access token is
    still in the store afterwards; nothing was deleted. *)
Lemma missing_refresh_token_deletes_nothing :
  unauthorized_first_time world_A1_only (error_on_first 401) 0
    (set_header "Authorization" "Bearer A1" (mergeConfig api_defaults stadiums)) /\
  store world_A1_only !! "refreshToken" = None /\
  let '(out, w') :=
    response_error_interceptor failing_server (api failing_server 1)
                               (error_on_first 401) world_A1_only in
  out = Throw (error_on_first 401) /\
  store w' !! "accessToken" = Some "A1" /\
  ~ (store w' !! "accessToken" = None /\ store w' !! "refreshToken" = None) /\
  store_calls (events_between world_A1_only w') = [(GetItem "refreshToken", true)].
Proof.
  split; [repeat split |]. split; [reflexivity |].
  vm_compute. repeat split. intros [H _]. discriminate H.
Qed.

(** C4, amended. A 401 on a request not yet retried, with no refresh token in
    the store (none, or an empty one): the request is marked, the refresh
    endpoint is not called, nothing is sent again, the store is left exactly
    as it was (no token is deleted), and the caller gets the original error. *)
Theorem missing_refresh_token_surfaces_401
    (env : Env) (replay : Config -> M Response) (error : Thrown)
    (l : loc) (c : Config) (w : World) :
  unauthorized_first_time w error l c ->
  store_fault env (clock w) (GetItem "refreshToken") = false ->
  holds_none w "refreshToken" ->
  let '(out, w') := response_error_interceptor env replay error w in
  out = Throw error /\
  store w' = store w /\
  heap w' !! l = Some (set_retry_flag c) /\
  events_between w w' =
    [EvMarkRetry l; EvStore (GetItem "refreshToken") true; EvConsoleError "API Error:"].
Proof.
  intros Hfirst Hget Hnone.
  pose proof Hfirst as (_ & _ & Hc & _).
  rewrite (first_401_marks env _ error l c w Hfirst).
  unfold after_mark, bind at 1, try_catch, refresh_tokens, bind at 1, getItemAsync.
  wsimpl. rewrite Hget.
  destruct Hnone as [Hs | Hs]; rewrite Hs; cbn [String.eqb ret];
    unfold bind, console_error, throw; wsimpl;
    (split; [reflexivity |]); (split; [reflexivity |]);
    (split; [by rewrite list_lookup_alter_eq, Hc |]);
    read_events; reflexivity.
Qed.

Lemma missing_refresh_token_surfaces_401_witness :
  let '(out, w') :=
    response_error_interceptor failing_server (api failing_server 1)
                               (error_on_first 401) world_A1_only in
  out = Throw (error_on_first 401) /\
  store w' = store world_A1_only /\
  heap w' !! 0 = Some (set_retry_flag (set_header "Authorization" "Bearer A1"
                                          (mergeConfig api_defaults stadiums))) /\
  events_between world_A1_only w' =
    [EvMarkRetry 0; EvStore (GetItem "refreshToken") true; EvConsoleError "API Error:"].
Proof.
  apply (missing_refresh_token_surfaces_401 failing_server (api failing_server 1)
           (error_on_first 401) 0
           (set_header "Authorization" "Bearer A1" (mergeConfig api_defaults stadiums))
           world_A1_only).
  - repeat split.
  - reflexivity.
  - left. reflexivity.
Defined.

(** ** A first 401 with a refresh that fails *)

Section Cleanup.

Variable env : Env.

Lemma clear_tokens_run (refreshError : Thrown) (w : World) :
  deletes_succeed env ->
  clear_tokens env refreshError w =
    (Return None,
     mkWorld (delete "refreshToken" (delete "accessToken" (store w))) (heap w)
             (2 + clock w)
             (EvStore (DeleteItem "refreshToken") true
                :: EvStore (DeleteItem "accessToken") true :: trace w)
             (session w)).
Proof.
  intros Hdel. unfold clear_tokens, bind, deleteItemAsync. wsimpl.
  by rewrite !Hdel.
Qed.

Lemma log_and_reject (error : Thrown) (w : World) :
  (console_error "API Error:" ;;; @throw Response error) w =
    (Throw error, record (EvConsoleError "API Error:") w).
Proof. reflexivity. Qed.

End Cleanup.

(** The claim C3 as stated fails when the cleanup itself throws: the refresh
    endpoint answers 500 and the store refuses the delete; the caller gets the
    store's error instead of the original 401, and both tokens are still in
    the store. *)
Lemma failed_cleanup_hides_the_401 :
  unauthorized_first_time world_A1_R1 (error_on_first 401) 0
    (set_header "Authorization" "Bearer A1" (mergeConfig api_defaults stadiums)) /\
  holds world_A1_R1 "refreshToken" "R1" /\
  refresh_attempt_fails stuck_store world_A1_R1 "R1" /\
  let '(out, w') :=
    response_error_interceptor stuck_store (api stuck_store 1)
                               (error_on_first 401) world_A1_R1 in
  out = Throw (StoreErr (DeleteItem "accessToken")) /\
  out <> Throw (error_on_first 401) /\
  store w' !! "accessToken" = Some "A1" /\
  store w' !! "refreshToken" = Some "R1".
Proof.
  split; [repeat split |]. split; [split; [reflexivity | discriminate] |].
  split; [eapply endpoint_rejects; reflexivity |].
  vm_compute. repeat split. discriminate.
Qed.

(** C3, amended. A 401 on a request not yet retried, a refresh token found in
    the store, and a refresh attempt that fails (the endpoint rejects the
    call, or the new tokens cannot be written), with a store that carries out
    the deletes of the cleanup: nothing is sent again, the refresh endpoint
    was called once, both tokens are gone from the store (and nothing else
    is), and the caller gets the original 401 error, not the error of the
    refresh. *)
Theorem failed_refresh_clears_and_surfaces_401
    (env : Env) (replay : Config -> M Response) (error : Thrown)
    (l : loc) (c : Config) (w : World) (rt : string) :
  unauthorized_first_time w error l c ->
  store_fault env (clock w) (GetItem "refreshToken") = false ->
  holds w "refreshToken" rt ->
  refresh_attempt_fails env w rt ->
  deletes_succeed env ->
  let '(out, w') := response_error_interceptor env replay error w in
  let es := events_between w w' in
  out = Throw error /\
  store w' = delete "refreshToken" (delete "accessToken" (store w)) /\
  store w' !! "accessToken" = None /\
  store w' !! "refreshToken" = None /\
  dispatches es = [] /\
  refresh_calls es = [refresh_request rt].
Proof.
  intros Hfirst Hget [Hrt Hne] Hfail Hdel.
  apply String.eqb_neq in Hne.
  rewrite (first_401_marks env _ error l c w Hfirst).
  unfold after_mark, bind at 1, try_catch, refresh_tokens, bind at 1, getItemAsync.
  wsimpl. rewrite Hget, Hrt, Hne.
  unfold bind at 1, axios_post. wsimpl. fold (refresh_request rt).
  assert (Hgone : forall s : gmap string string,
            delete "refreshToken" (delete "accessToken" s) !! "accessToken" = None /\
            delete "refreshToken" (delete "accessToken" s) !! "refreshToken" = None).
  { intros s. split.
    - rewrite lookup_delete_ne by discriminate. apply lookup_delete_eq.
    - apply lookup_delete_eq. }
  destruct Hfail as [r msg Hpost | resp Hpost Hw1 | resp Hpost Hw1 Hw2];
    rewrite Hpost.
  - rewrite clear_tokens_run by exact Hdel. rewrite log_and_reject. wsimpl.
    destruct (Hgone (store w)) as [Ha Hr].
    repeat split; try assumption; read_events; reflexivity.
  - unfold bind at 1, destructure_tokens.
    unfold write_fails in Hw1. cbn [Nat.add] in Hw1.
    destruct (Hgone (store w)) as [Ha Hr].
    destruct (data resp) as [| | s | n | fields];
      cbn [ret throw];
      try (rewrite clear_tokens_run by exact Hdel; rewrite log_and_reject; wsimpl;
           repeat split; try assumption; read_events; reflexivity);
      unfold bind at 1, setItemAsync; wsimpl;
      destruct (store_fault env (S (S (clock w))) _) eqn:Hf;
      try (rewrite clear_tokens_run by exact Hdel; rewrite log_and_reject; wsimpl;
           repeat split; try assumption; read_events; reflexivity);
      cbn [orb] in Hw1;
      destruct (get_field "accessToken" _) eqn:Hv; try discriminate Hw1;
      rewrite clear_tokens_run by exact Hdel; rewrite log_and_reject; wsimpl;
      repeat split; try assumption; read_events; reflexivity.
  - unfold bind at 1, destructure_tokens.
    unfold write_fails in Hw1, Hw2. cbn [Nat.add] in Hw1, Hw2.
    apply orb_false_elim in Hw1 as [Hf1 Hs1].
    destruct (get_field "accessToken" (data resp)) as [| | a | |] eqn:Hva;
      try discriminate Hs1.
    assert (Hstore : delete "refreshToken"
                       (delete "accessToken" (<["accessToken" := a]> (store w)))
                     = delete "refreshToken" (delete "accessToken" (store w)))
      by (by rewrite delete_insert_eq).
    destruct (Hgone (store w)) as [Ha Hr].
    destruct (data resp) as [| | s | n | fields]; try discriminate Hva.
    cbn [ret]. cbn [get_field] in Hw2 |- *.
    unfold bind at 1, setItemAsync. wsimpl. rewrite Hf1. wsimpl.
    unfold bind at 1, setItemAsync. wsimpl.
    destruct (store_fault env (S (S (S (clock w)))) _) eqn:Hf2.
    + rewrite clear_tokens_run by exact Hdel. rewrite log_and_reject. wsimpl.
      rewrite Hstore. repeat split; try assumption; read_events; reflexivity.
    + cbn [orb] in Hw2.
      destruct (assoc_value "refreshToken" fields) eqn:Hvr; try discriminate Hw2;
        rewrite clear_tokens_run by exact Hdel; rewrite log_and_reject; wsimpl;
        rewrite Hstore; repeat split; try assumption; read_events; reflexivity.
Qed.

Lemma failed_refresh_clears_and_surfaces_401_witness :
  let '(out, w') :=
    response_error_interceptor failing_server (api failing_server 1)
                               (error_on_first 401) world_A1_R1 in
  let es := events_between world_A1_R1 w' in
  out = Throw (error_on_first 401) /\
  store w' = delete "refreshToken" (delete "accessToken" (store world_A1_R1)) /\
  store w' !! "accessToken" = None /\
  store w' !! "refreshToken" = None /\
  dispatches es = [] /\
  refresh_calls es = [refresh_request "R1"].
Proof.
  apply (failed_refresh_clears_and_surfaces_401 failing_server (api failing_server 1)
           (error_on_first 401) 0
           (set_header "Authorization" "Bearer A1" (mergeConfig api_defaults stadiums))
           world_A1_R1 "R1").
  - repeat split.
  - reflexivity.
  - split; [reflexivity | discriminate].
  - eapply endpoint_rejects. reflexivity.
  - intros t key. reflexivity.
Defined.

(** ** The bound on refreshes and resends *)

Lemma marked_before_refresh_true (es : list Event) :
  marked_before_refresh true es = true.
Proof. induction es as [| [] es IH]; cbn; auto. Qed.

Section Bounds.

Variable env : Env.

Ltac give_events w1 :=
  lazymatch goal with
  | |- exists out w2 evs, (?o, ?W) = (out, w2) /\ _ =>
      let t := eval cbn [tick record with_store with_heap with_session marked
                         clock store heap trace session app] in (trace W) in
      let p := trace_prefix t (trace w1) in
      let evs := eval cbn [rev app] in (rev p) in
      exists o, W, evs
  end.

(** Whatever the store and the network do, the [try]/[catch] around the
    refresh sends nothing through the instance, calls the refresh endpoint at
    most once, and hands back a request to replay only after exactly one such
    call, and then a request that is marked. *)
Lemma refresh_phase_bounds (l : loc) (c1 : Config) (w1 : World) :
  heap w1 !! l = Some c1 -> _retry c1 = true ->
  exists out w2 evs,
    try_catch (refresh_tokens env (Some l)) (clear_tokens env) w1 = (out, w2) /\
    trace w2 = (rev evs ++ trace w1)%list /\
    dispatches evs = [] /\
    match out with
    | Return (Some c') => _retry c' = true /\ length (refresh_calls evs) = 1
    | Return None | Throw _ => length (refresh_calls evs) <= 1
    | OutOfFuel => False
    end.
Proof.
  intros Hc Hr.
  unfold try_catch, refresh_tokens, clear_tokens, bind, getItemAsync, axios_post,
    destructure_tokens, setItemAsync, deleteItemAsync, assign_authorization,
    read_config, ret, throw.
  cbn [mbind option_bind]. wsimpl.
  repeat (case_match; wsimpl; simplify_eq);
    try (give_events w1; repeat split; cbn; try lia; fail).
  all: give_events w1; repeat split; cbn; try lia.
  all: match goal with
       | H : _ !! _ = Some ?c |- _retry ?c = true =>
           cbn [tick record with_store with_heap clock store heap trace session] in H;
           rewrite list_lookup_alter_eq, (lookup_app_l_Some _ _ _ _ Hc) in H;
           cbn in H; simplify_eq; exact Hr
       end.
Qed.

End Bounds.

Lemma dispatches_app (es1 es2 : list Event) :
  dispatches (es1 ++ es2) = (dispatches es1 ++ dispatches es2)%list.
Proof. apply omap_app. Qed.

Lemma refresh_calls_app (es1 es2 : list Event) :
  refresh_calls (es1 ++ es2) = (refresh_calls es1 ++ refresh_calls es2)%list.
Proof. apply omap_app. Qed.

Lemma marked_before_refresh_after_mark (b : bool) (es1 es2 : list Event) (l : loc) :
  refresh_calls es1 = [] ->
  marked_before_refresh b (es1 ++ EvMarkRetry l :: es2) = true.
Proof.
  revert b. induction es1 as [| e es1 IH]; intros b H.
  - cbn. apply marked_before_refresh_true.
  - destruct e; cbn in H |- *; try discriminate H; auto.
Qed.

Lemma marked_before_refresh_none (b : bool) (es : list Event) :
  refresh_calls es = [] -> marked_before_refresh b es = true.
Proof.
  revert b. induction es as [| e es IH]; intros b H; [reflexivity |].
  destruct e; cbn in H |- *; try discriminate H; auto.
Qed.

Lemma events_between_chronological (w w' : World) (es : list Event) :
  trace w' = (rev es ++ trace w)%list -> events_between w w' = es.
Proof.
  intros H. rewrite (events_between_app w w' (rev es) H). apply rev_involutive.
Qed.

(** A server that keeps answering 401: one refresh, one resend, and the
    second 401 goes to the caller as it is. *)
Example second_401_is_final :
  let '(out, w') := api stubborn_server 2 stadiums world_start in
  let es := events_between world_start w' in
  out = Throw (AxiosErr (mkAxiosError (Some 2) (Some (mkResponse 401 VNull))
                           "Request failed with status code 401")) /\
  fst (api stubborn_server 7 stadiums world_start) = out /\
  length (refresh_calls es) = 1 /\
  map (fun c => headers c !! "Authorization") (sent es)
    = [Some "Bearer A1"; Some "Bearer A2"] /\
  map _retry (sent es) = [false; true].
Proof. vm_compute. repeat split. Qed.

Lemma interceptor_events_quiet (env : Env) (w : World) :
  dispatches (rev (interceptor_events env w)) = [] /\
  refresh_calls (rev (interceptor_events env w)) = [].
Proof. unfold interceptor_events. case_match; split; reflexivity. Qed.

Ltac chronological es :=
  rewrite (events_between_chronological _ _ es);
  [| repeat (rewrite ?rev_app_distr, ?rev_involutive; cbn [rev app]);
     wsimpl; rewrite <- ?app_assoc; cbn [app]; try reflexivity].

(** C1. One call of the instance, whatever the store and the network do (for
    any fuel of at least two the call returns): the refresh endpoint is called
    at most once, the request is sent at most twice (the original send and one
    resend), no refresh call happens before the request is marked as retried,
    and when there is a resend, it is of a request marked as retried, after
    exactly one refresh call, and the caller gets what that resend settles
    with, be it a 401 again. *)
Theorem at_most_one_refresh_and_resend
    (env : Env) (fuel : nat) (cfg : Config) (w : World) :
  let '(out, w') := api env (S (S fuel)) cfg w in
  let es := events_between w w' in
  out <> OutOfFuel /\
  length (refresh_calls es) <= 1 /\
  length (dispatches es) <= 2 /\
  marked_before_refresh false es = true /\
  (forall d1 l2 c2 reply2,
     dispatches es = [d1; (l2, c2, reply2)] ->
     _retry c2 = true /\ length (refresh_calls es) = 1 /\ out = settle l2 reply2).
Proof.
  rewrite api_run. cbn zeta.
  set (c := intercepted env w (mergeConfig api_defaults cfg)).
  set (l := length (heap w)).
  set (ie := interceptor_events env w).
  destruct (interceptor_events_quiet env w) as [Hied Hier]. fold ie in Hied, Hier.
  match goal with |- context [response_error_interceptor _ _ _ ?ww] => set (w1 := ww) end.
  assert (Hc : heap w1 !! l = Some c) by (apply list_lookup_middle; reflexivity).
  destruct (transport env (S (clock w)) c) as [r | r msg] eqn:Hreply.
  - (* the request is answered *)
    chronological (rev ie ++ [EvDispatch l c (Resolve r)])%list.
    rewrite dispatches_app, refresh_calls_app, Hied, Hier. cbn.
    split; [discriminate |]. split; [lia |]. split; [lia |].
    split; [| intros; discriminate].
    apply marked_before_refresh_none. by rewrite refresh_calls_app, Hier.
  - set (error := AxiosErr (mkAxiosError (Some l) r msg)).
    destruct (status_is 401 error) eqn:Hs; [destruct (_retry c) eqn:Hretry |].
    + (* a 401 on a request that came in marked *)
      rewrite pass_through by (right; exists l, c; repeat split; assumption).
      chronological (rev ie ++ [EvDispatch l c (Reject r msg); EvConsoleError "API Error:"])%list.
      rewrite dispatches_app, refresh_calls_app, Hied, Hier. cbn.
      split; [discriminate |]. split; [lia |]. split; [lia |].
      split; [| intros; discriminate].
      apply marked_before_refresh_none. by rewrite refresh_calls_app, Hier.
    + (* a first 401 *)
      rewrite (first_401_marks env _ error l c w1) by (repeat split; assumption).
      unfold after_mark, bind at 1.
      destruct (refresh_phase_bounds env l (set_retry_flag c) (marked l w1))
        as (out2 & w2 & evs & Hrun & Htr & Hdisp & Hout);
        [by apply marked_lookup | reflexivity |].
      rewrite Hrun.
      assert (Hmark : forall tail,
                marked_before_refresh false
                  (rev ie ++ [EvDispatch l c (Reject r msg); EvMarkRetry l] ++ evs ++ tail)%list
                = true).
      { intros tail. cbn [app].
        rewrite (cons_middle (EvDispatch l c (Reject r msg)) (rev ie)), app_assoc.
        apply marked_before_refresh_after_mark.
        by rewrite refresh_calls_app, Hier. }
      destruct out2 as [[c' |] | t |]; [| | | contradiction].
      * (* the refresh went through: one resend *)
        destruct Hout as [Hr' Hone].
        rewrite replay_run by exact Hr'. cbn zeta.
        set (c2 := intercepted env w2 (mergeConfig api_defaults c')).
        set (l2 := length (heap w2)).
        set (ie2 := interceptor_events env w2).
        destruct (interceptor_events_quiet env w2) as [Hied2 Hier2].
        fold ie2 in Hied2, Hier2.
        assert (Hc2 : _retry c2 = true)
          by (subst c2; by rewrite intercepted_retry, mergeConfig_retry).
        destruct (transport env (S (clock w2)) c2) as [r2 | r2 msg2] eqn:Hreply2.
        -- chronological (rev ie ++ [EvDispatch l c (Reject r msg); EvMarkRetry l] ++ evs
                            ++ rev ie2 ++ [EvDispatch l2 c2 (Resolve r2)])%list;
             [| by rewrite Htr].
           split; [discriminate |].
           rewrite !dispatches_app, !refresh_calls_app, Hied, Hier, Hied2, Hier2, Hdisp.
           cbn. rewrite length_app. cbn.
           split; [lia |]. split; [lia |]. split; [apply Hmark |].
           intros d1 l2' c2' reply2' [= _ <- <- <-].
           repeat split; [exact Hc2 | lia].
        -- chronological (rev ie ++ [EvDispatch l c (Reject r msg); EvMarkRetry l] ++ evs
                            ++ rev ie2 ++ [EvDispatch l2 c2 (Reject r2 msg2);
                                           EvConsoleError "API Error:"])%list;
             [| by rewrite Htr].
           split; [discriminate |].
           rewrite !dispatches_app, !refresh_calls_app, Hied, Hier, Hied2, Hier2, Hdisp.
           cbn. rewrite length_app. cbn.
           split; [lia |]. split; [lia |]. split; [apply Hmark |].
           intros d1 l2' c2' reply2' [= _ <- <- <-].
           repeat split; [exact Hc2 | lia].
      * (* no replay: the original error is logged and rejected *)
        rewrite log_and_reject.
        chronological (rev ie ++ [EvDispatch l c (Reject r msg); EvMarkRetry l] ++ evs
                         ++ [EvConsoleError "API Error:"])%list;
          [| by rewrite Htr].
        split; [discriminate |].
        rewrite !dispatches_app, !refresh_calls_app, Hied, Hier, Hdisp.
        cbn. rewrite length_app. cbn.
        split; [lia |]. split; [lia |]. split; [apply Hmark |].
        intros; discriminate.
      * (* the cleanup threw *)
        chronological (rev ie ++ [EvDispatch l c (Reject r msg); EvMarkRetry l] ++ evs ++ [])%list;
          [| by rewrite Htr].
        split; [discriminate |].
        rewrite !dispatches_app, !refresh_calls_app, Hied, Hier, Hdisp.
        cbn. rewrite length_app. cbn.
        split; [lia |]. split; [lia |]. split; [apply Hmark |].
        intros; discriminate.
    + (* another error *)
      rewrite pass_through by (left; exact Hs).
      chronological (rev ie ++ [EvDispatch l c (Reject r msg); EvConsoleError "API Error:"])%list.
      rewrite dispatches_app, refresh_calls_app, Hied, Hier. cbn.
      split; [discriminate |]. split; [lia |]. split; [lia |].
      split; [| intros; discriminate].
      apply marked_before_refresh_none. by rewrite refresh_calls_app, Hier.
Qed.

(** ** The trace only grows *)

Create HintDb grows discriminated.

Lemma grows_ret {A : Type} (a : A) : grows (ret a).
Proof. intros w. by exists []. Qed.

Lemma grows_throw {A : Type} (t : Thrown) : grows (@throw A t).
Proof. intros w. by exists []. Qed.

Lemma grows_bind {A B : Type} (m : M A) (k : A -> M B) :
  grows m -> (forall a, grows (k a)) -> grows (bind m k).
Proof.
  intros Hm Hk w. unfold bind. destruct (Hm w) as [new1 H1].
  destruct (m w) as [[a | t |] w1]; cbn [snd] in H1 |- *.
  - destruct (Hk a w1) as [new2 H2]. exists (new2 ++ new1)%list.
    by rewrite H2, H1, app_assoc.
  - by exists new1.
  - by exists new1.
Qed.

Lemma grows_try_catch {A : Type} (m : M A) (h : Thrown -> M A) :
  grows m -> (forall t, grows (h t)) -> grows (try_catch m h).
Proof.
  intros Hm Hh w. unfold try_catch. destruct (Hm w) as [new1 H1].
  destruct (m w) as [[a | t |] w1]; cbn [snd] in H1 |- *.
  - by exists new1.
  - destruct (Hh t w1) as [new2 H2]. exists (new2 ++ new1)%list.
    by rewrite H2, H1, app_assoc.
  - by exists new1.
Qed.

Lemma grows_console_error (label : string) : grows (console_error label).
Proof. intros w. by exists [EvConsoleError label]. Qed.

#[export] Hint Resolve grows_ret grows_throw grows_console_error : grows.

(** Goes through a computation along its binds, handlers and case
    distinctions; the hint database closes the leaves. *)
Ltac solve_grows :=
  repeat first
    [ apply grows_bind; [| intros ?]
    | apply grows_try_catch; [| intros ?]
    | solve [auto with grows]
    | case_match ].

Section Grows.

Variable env : Env.

Lemma grows_getItemAsync (key : string) : grows (getItemAsync env key).
Proof.
  intros w. unfold getItemAsync. case_match; wsimpl; by eexists [_].
Qed.

Lemma grows_setItemAsync (key : string) (value : Value) :
  grows (setItemAsync env key value).
Proof.
  intros w. unfold setItemAsync. repeat case_match; wsimpl; by eexists [_].
Qed.

Lemma grows_deleteItemAsync (key : string) : grows (deleteItemAsync env key).
Proof.
  intros w. unfold deleteItemAsync. case_match; wsimpl; by eexists [_].
Qed.

Lemma grows_alloc (c : Config) : grows (alloc c).
Proof. intros w. by exists []. Qed.

Lemma grows_read_config (o : option loc) : grows (read_config o).
Proof. intros w. unfold read_config. case_match; by exists []. Qed.

Lemma grows_mark_retry (o : option loc) : grows (mark_retry o).
Proof.
  intros w. unfold mark_retry. case_match; [by eexists [_] | by exists []].
Qed.

Lemma grows_assign_authorization (o : option loc) (value : string) :
  grows (assign_authorization o value).
Proof. intros w. unfold assign_authorization. case_match; by exists []. Qed.

Lemma grows_dispatchRequest (l : loc) : grows (dispatchRequest env l).
Proof.
  intros w. unfold dispatchRequest. repeat case_match; wsimpl;
    first [by eexists [_] | by exists []].
Qed.

Lemma grows_axios_post (target : string) (payload : Value) :
  grows (axios_post env target payload).
Proof.
  intros w. unfold axios_post. case_match; wsimpl; by eexists [_].
Qed.

Lemma grows_destructure_tokens (d : Value) : grows (destructure_tokens d).
Proof. unfold destructure_tokens. destruct d; auto with grows. Qed.

Hint Resolve grows_getItemAsync grows_setItemAsync grows_deleteItemAsync
  grows_alloc grows_read_config grows_mark_retry grows_assign_authorization
  grows_dispatchRequest grows_axios_post grows_destructure_tokens : grows.

Lemma grows_request_interceptor (l : loc) : grows (request_interceptor env l).
Proof.
  unfold request_interceptor. solve_grows. Qed.

Lemma grows_refresh_tokens (o : option loc) : grows (refresh_tokens env o).
Proof.
  unfold refresh_tokens. solve_grows. Qed.

Lemma grows_clear_tokens (t : Thrown) : grows (clear_tokens env t).
Proof. unfold clear_tokens. solve_grows. Qed.

Hint Resolve grows_request_interceptor grows_refresh_tokens grows_clear_tokens : grows.

Lemma grows_response_error_interceptor (replay : Config -> M Response) (error : Thrown) :
  (forall c, grows (replay c)) ->
  grows (response_error_interceptor env replay error).
Proof.
  intros Hreplay. unfold response_error_interceptor. solve_grows.
Qed.

Lemma grows_api (fuel : nat) (cfg : Config) : grows (api env fuel cfg).
Proof.
  revert cfg. induction fuel as [| fuel IH]; intros cfg.
  - intros w. by exists [].
  - cbn [api]. pose proof (grows_response_error_interceptor (api env fuel)) as Hh.
    solve_grows.
Qed.

End Grows.

#[export] Hint Resolve grows_getItemAsync grows_setItemAsync grows_deleteItemAsync
  grows_alloc grows_read_config grows_mark_retry grows_assign_authorization
  grows_dispatchRequest grows_axios_post grows_destructure_tokens
  grows_request_interceptor grows_refresh_tokens grows_clear_tokens
  grows_api : grows.

(** ** What goes out first *)

Lemma sent_app (es1 es2 : list Event) :
  sent (es1 ++ es2) = (sent es1 ++ sent es2)%list.
Proof. apply omap_app. Qed.

Lemma events_between_grows {A : Type} (m : M A) (w w1 : World) (es : list Event) :
  grows m ->
  trace w1 = (rev es ++ trace w)%list ->
  exists rest, events_between w (snd (m w1)) = (es ++ rest)%list.
Proof.
  intros Hm H1. destruct (Hm w1) as [new Hnew]. exists (rev new).
  apply events_between_chronological.
  by rewrite Hnew, H1, rev_app_distr, rev_involutive, app_assoc.
Qed.

(** Every call of the instance first runs the request interceptor and then
    sends the request as the interceptor left it. *)
Lemma api_first_send (env : Env) (fuel : nat) (cfg : Config) (w : World) :
  let c := intercepted env w (mergeConfig api_defaults cfg) in
  exists rest,
    events_between w (snd (api env (S fuel) cfg w)) =
      (rev (interceptor_events env w)
         ++ EvDispatch (length (heap w)) c (transport env (S (clock w)) c) :: rest)%list.
Proof.
  cbn zeta. rewrite api_run. cbn zeta.
  set (c := intercepted env w (mergeConfig api_defaults cfg)).
  set (ie := interceptor_events env w).
  destruct (transport env (S (clock w)) c) as [r | r msg] eqn:Hreply.
  - exists []. cbn [snd]. apply events_between_chronological. cbn [trace].
    rewrite rev_app_distr, rev_involutive. reflexivity.
  - match goal with
    | |- context [response_error_interceptor env ?f ?e ?ww] =>
        destruct (events_between_grows (response_error_interceptor env f e) w ww
                    (rev ie ++ [EvDispatch (length (heap w)) c (Reject r msg)])%list)
          as [rest Hrest]
    end.
    + apply grows_response_error_interceptor. intros c'. apply grows_api.
    + cbn [trace]. rewrite rev_app_distr, rev_involutive. reflexivity.
    + exists rest. rewrite Hrest, <- app_assoc. reflexivity.
Qed.

Lemma mergeConfig_authorization (c : Config) :
  headers (mergeConfig api_defaults c) !! "Authorization" = headers c !! "Authorization".
Proof.
  cbn [mergeConfig headers api_defaults].
  destruct (headers c !! "Authorization") as [v |] eqn:H.
  - by apply lookup_union_Some_l.
  - apply lookup_union_None. split; [exact H | reflexivity].
Qed.

Lemma head_sent_first (pre : list Event) (l : loc) (c : Config) (reply : Reply)
    (rest : list Event) :
  sent pre = [] ->
  head (sent (pre ++ EvDispatch l c reply :: rest)) = Some c.
Proof. intros H. rewrite sent_app, H. reflexivity. Qed.

Lemma interceptor_events_not_sent (env : Env) (w : World) :
  sent (rev (interceptor_events env w)) = [].
Proof. unfold interceptor_events. case_match; reflexivity. Qed.

(** The claim C5 as stated fails for a request that comes with an
    Authorization header of its own: with no access token in the store, the
    request still goes out with that header. *)
Lemma own_authorization_header_goes_out :
  store world_empty !! "accessToken" = None /\
  let w' := snd (api failing_server 1 signed_request world_empty) in
  map (fun c => headers c !! "Authorization") (sent (events_between world_empty w'))
    = [Some "Basic c2NvdXQ6cGFzcw=="] /\
  store_calls (events_between world_empty w') = [(GetItem "accessToken", true)].
Proof. split; [reflexivity |]. vm_compute. split; reflexivity. Qed.

(** With an empty store, a request issued without an Authorization header
    goes out without one. *)
Example empty_store_sends_no_header :
  let w' := snd (api failing_server 1 stadiums world_empty) in
  map (fun c => headers c !! "Authorization") (sent (events_between world_empty w')) = [None].
Proof. vm_compute. reflexivity. Qed.

(** The first half of C5 also depends on what a token is: an empty string in
    the store counts as no token. *)
Example empty_access_token_is_not_attached :
  let w := mkWorld {[ "accessToken" := "" ]} [] 0 [] signed_out in
  let w' := snd (api failing_server 1 stadiums w) in
  map (fun c => headers c !! "Authorization") (sent (events_between w w')) = [None].
Proof. vm_compute. reflexivity. Qed.

(** C5, amended. For every call of the instance whose read of the store goes
    through, the request that is sent is the caller's request (merged with the
    defaults) and
    - with a token in the store, it carries Authorization: Bearer <token>,
      whatever Authorization header it came with;
    - with no token in the store, the pipeline adds no Authorization header:
      the request goes out with the one it came with, hence with none when it
      came with none. *)
Theorem bearer_header_follows_store
    (env : Env) (fuel : nat) (cfg : Config) (w : World) :
  store_fault env (clock w) (GetItem "accessToken") = false ->
  let w' := snd (api env (S fuel) cfg w) in
  exists c,
    head (sent (events_between w w')) = Some c /\
    url c = url cfg /\ method c = method cfg /\ body c = body cfg /\
    (forall token, holds w "accessToken" token ->
       headers c !! "Authorization" = Some ("Bearer " ++ token)) /\
    (holds_none w "accessToken" ->
       headers c !! "Authorization" = headers cfg !! "Authorization") /\
    (holds_none w "accessToken" -> headers cfg !! "Authorization" = None ->
       headers c !! "Authorization" = None).
Proof.
  intros Hread. cbn zeta.
  destruct (api_first_send env fuel cfg w) as [rest Hes].
  exists (intercepted env w (mergeConfig api_defaults cfg)).
  rewrite Hes. split; [apply head_sent_first, interceptor_events_not_sent |].
  destruct (intercepted_request env w (mergeConfig api_defaults cfg)) as (-> & -> & -> & _).
  do 3 (split; [reflexivity |]).
  assert (Hnone : holds_none w "accessToken" ->
            headers (intercepted env w (mergeConfig api_defaults cfg)) !! "Authorization"
            = headers cfg !! "Authorization").
  { intros Hn. unfold intercepted. rewrite Hread.
    destruct Hn as [-> | ->]; apply mergeConfig_authorization. }
  split; [| split].
  - intros token [Hstore Hne]. apply String.eqb_neq in Hne.
    unfold intercepted. rewrite Hread, Hstore, Hne.
    cbn [headers set_header]. apply lookup_insert_eq.
  - exact Hnone.
  - intros Hn Hc. by rewrite Hnone.
Qed.

Lemma bearer_header_follows_store_witness :
  let w' := snd (api rotating_server 2 stadiums world_start) in
  exists c,
    head (sent (events_between world_start w')) = Some c /\
    url c = url stadiums /\ method c = method stadiums /\ body c = body stadiums /\
    (forall token, holds world_start "accessToken" token ->
       headers c !! "Authorization" = Some ("Bearer " ++ token)) /\
    (holds_none world_start "accessToken" ->
       headers c !! "Authorization" = headers stadiums !! "Authorization") /\
    (holds_none world_start "accessToken" -> headers stadiums !! "Authorization" = None ->
       headers c !! "Authorization" = None).
Proof.
  apply (bearer_header_follows_store rotating_server 1 stadiums world_start).
  reflexivity.
Defined.

(** ** A read of the access token that throws *)

(** The claim C9 as stated fails on the replay after a refresh: the reads of
    the access token throw, the first send goes out without an Authorization
    header and is answered 401, the refresh goes through, and the replayed
    request goes out with Authorization: Bearer A2, set by the response
    interceptor, although the read before it threw as well. *)
Lemma replay_keeps_bearer_when_read_throws :
  let '(out, w') := api blind_pipeline 2 stadiums world_start in
  let es := events_between world_start w' in
  store_calls es =
    [(GetItem "accessToken", false);
     (GetItem "refreshToken", true);
     (SetItem "accessToken" (VString "A2"), true);
     (SetItem "refreshToken" (VString "R2"), true);
     (GetItem "accessToken", false)] /\
  map (fun c => headers c !! "Authorization") (sent es) = [None; Some "Bearer A2"] /\
  out = Return (mkResponse 200 (VString "stadium list")).
Proof. vm_compute. repeat split. Qed.

(** C9, amended. When the read of the access token throws, the request
    interceptor logs the error and the request is sent all the same, exactly
    as the caller gave it (merged with the defaults): the interceptor adds no
    Authorization header, so the request goes out with the one it came with,
    and with none when it came with none. *)
Theorem failed_token_read_is_swallowed
    (env : Env) (fuel : nat) (cfg : Config) (w : World) :
  store_fault env (clock w) (GetItem "accessToken") = true ->
  let c := mergeConfig api_defaults cfg in
  let w' := snd (api env (S fuel) cfg w) in
  fst (request_interceptor env (length (heap w)) w) = Return (length (heap w)) /\
  (exists rest,
     events_between w w' =
       EvStore (GetItem "accessToken") false
         :: EvConsoleError "Error getting token:"
         :: EvDispatch (length (heap w)) c (transport env (S (clock w)) c)
         :: rest) /\
  head (sent (events_between w w')) = Some c /\
  headers c !! "Authorization" = headers cfg !! "Authorization" /\
  (headers cfg !! "Authorization" = None -> headers c !! "Authorization" = None).
Proof.
  intros Hread. cbn zeta.
  destruct (api_first_send env fuel cfg w) as [rest Hes].
  assert (Hc : intercepted env w (mergeConfig api_defaults cfg) = mergeConfig api_defaults cfg)
    by (unfold intercepted; by rewrite Hread).
  assert (Hie : interceptor_events env w =
                [EvConsoleError "Error getting token:"; EvStore (GetItem "accessToken") false])
    by (unfold interceptor_events; by rewrite Hread).
  rewrite Hc, Hie in Hes. cbn [rev app] in Hes.
  split; [by rewrite request_interceptor_run |].
  split; [by exists rest |].
  split; [by rewrite Hes |].
  split; [apply mergeConfig_authorization |].
  intros H. by rewrite mergeConfig_authorization.
Qed.

Lemma failed_token_read_is_swallowed_witness :
  let c := mergeConfig api_defaults stadiums in
  let w' := snd (api blind_pipeline 2 stadiums world_start) in
  fst (request_interceptor blind_pipeline (length (heap world_start)) world_start)
    = Return (length (heap world_start)) /\
  (exists rest,
     events_between world_start w' =
       EvStore (GetItem "accessToken") false
         :: EvConsoleError "Error getting token:"
         :: EvDispatch (length (heap world_start)) c
              (transport blind_pipeline (S (clock world_start)) c)
         :: rest) /\
  head (sent (events_between world_start w')) = Some c /\
  headers c !! "Authorization" = headers stadiums !! "Authorization" /\
  (headers stadiums !! "Authorization" = None -> headers c !! "Authorization" = None).
Proof.
  apply (failed_token_read_is_swallowed blind_pipeline 1 stadiums world_start).
  reflexivity.
Defined.

(** ** The requests of login and of the refresh step *)

Section RefreshCall.

Variable env : Env.

Lemma grows_persist_tokens (o : option loc) (response : Response) :
  grows (persist_tokens env o response).
Proof.
  unfold persist_tokens. solve_grows.
Qed.

(** With a refresh token in the store, the [try] block reads it, posts it to
    the refresh endpoint, and goes on from the answer. *)
Lemma refresh_tokens_to_call (o : option loc) (w : World) (rt : string) :
  store_fault env (clock w) (GetItem "refreshToken") = false ->
  holds w "refreshToken" rt ->
  let reply := transport env (S (clock w)) (refresh_request rt) in
  refresh_tokens env o w =
    match reply with
    | Resolve resp => persist_tokens env o resp
    | Reject r msg => throw (AxiosErr (mkAxiosError (Some (length (heap w))) r msg))
    end (after_refresh_call w rt reply).
Proof.
  intros Hget [Hrt Hne]. apply String.eqb_neq in Hne. cbn zeta.
  unfold refresh_tokens, bind at 1, getItemAsync. rewrite Hget, Hrt, Hne.
  unfold bind at 1, axios_post. wsimpl. fold (refresh_request rt).
  unfold after_refresh_call. wsimpl.
  destruct (transport env (S (clock w)) (refresh_request rt)); reflexivity.
Qed.

Lemma refresh_call_first (replay : Config -> M Response) (error : Thrown)
    (l : loc) (cfg : Config) (w : World) (rt : string) :
  (forall c, grows (replay c)) ->
  unauthorized_first_time w error l cfg ->
  store_fault env (clock w) (GetItem "refreshToken") = false ->
  holds w "refreshToken" rt ->
  exists rest,
    events_between w (snd (response_error_interceptor env replay error w)) =
      EvMarkRetry l
        :: EvStore (GetItem "refreshToken") true
        :: EvPost (refresh_request rt) (transport env (S (clock w)) (refresh_request rt))
        :: rest.
Proof.
  intros Hreplay Hfirst Hget Hrt.
  rewrite (first_401_marks env _ error l cfg w Hfirst).
  unfold after_mark, bind at 1, try_catch.
  rewrite (refresh_tokens_to_call (Some l) (marked l w) rt Hget Hrt). cbn zeta.
  change (clock (marked l w)) with (clock w).
  set (reply := transport env (S (clock w)) (refresh_request rt)).
  set (w3 := after_refresh_call (marked l w) rt reply).
  set (body := match reply with
               | Resolve resp => persist_tokens env (Some l) resp
               | Reject r msg =>
                   throw (AxiosErr (mkAxiosError (Some (length (heap (marked l w)))) r msg))
               end).
  pose (m := r <- try_catch body (clear_tokens env) ;;
             match r with
             | Some c => replay c
             | None => console_error "API Error:" ;;; throw error
             end).
  assert (Hm : grows m).
  { pose proof grows_persist_tokens.
    subst m body. destruct reply; solve_grows. }
  destruct (events_between_grows m w w3
              [EvMarkRetry l; EvStore (GetItem "refreshToken") true;
               EvPost (refresh_request rt) reply] Hm) as [rest Hrest];
    [reflexivity |].
  exists rest. exact Hrest.
Qed.

End RefreshCall.

Lemma intercepted_other_header (env : Env) (w : World) (c : Config) (name : string) :
  name <> "Authorization" ->
  headers (intercepted env w c) !! name = headers c !! name.
Proof.
  intros Hne. unfold intercepted. repeat case_match; try reflexivity.
  cbn [headers set_header]. by rewrite lookup_insert_ne.
Qed.

(** C8. Login posts the e-mail and the password as the two fields of a
    multipart form to /auth/login (under the base URL) through the instance,
    and returns the body of the response when the endpoint answers; the
    refresh step of the response interceptor posts an object with the one
    field refreshToken, which axios sends as JSON, to /auth/refresh. *)
Theorem login_and_refresh_requests
    (env : Env) (fuel : nat) (credentials : authService.LoginRequest) (w : World) :
  (let '(out, w') := authService.login env (S fuel) credentials w in
   exists c reply rest,
     dispatches (events_between w w') = (length (heap w), c, reply) :: rest /\
     reply = transport env (S (clock w)) c /\
     method c = POST /\ url c = "/auth/login" /\ baseURL c = Some API_BASE_URL /\
     body c = FormData [("email", authService.email credentials);
                        ("password", authService.password credentials)] /\
     headers c !! "Content-Type" = Some "multipart/form-data" /\
     (forall r, reply = Resolve r -> out = Return (data r)))
  /\
  (forall (error : Thrown) (l : loc) (cfg : Config) (rt : string),
     unauthorized_first_time w error l cfg ->
     store_fault env (clock w) (GetItem "refreshToken") = false ->
     holds w "refreshToken" rt ->
     let w' := snd (response_error_interceptor env (api env fuel) error w) in
     exists c rest,
       refresh_calls (events_between w w') = c :: rest /\
       method c = POST /\ url c = API_BASE_URL ++ "/auth/refresh" /\
       baseURL c = None /\
       body c = JsonBody (VObject [("refreshToken", VString rt)])).
Proof.
  split.
  - unfold authService.login, api_post, append. cbn [app].
    set (cfg := mkConfig None "/auth/login" POST authService.multipart _ false).
    set (c := intercepted env w (mergeConfig api_defaults cfg)).
    destruct (api_first_send env fuel cfg w) as [rest Hes]. fold c in Hes.
    pose proof (api_run env fuel cfg w) as Hrun. cbn zeta in Hrun. fold c in Hrun.
    unfold bind.
    destruct (api env (S fuel) cfg w) as [o w'] eqn:Hapi. cbn [snd] in Hes.
    assert (Hfacts :
              dispatches (events_between w w')
                = (length (heap w), c, transport env (S (clock w)) c) :: dispatches rest /\
              method c = POST /\ url c = "/auth/login" /\ baseURL c = Some API_BASE_URL /\
              body c = FormData [("email", authService.email credentials);
                                 ("password", authService.password credentials)] /\
              headers c !! "Content-Type" = Some "multipart/form-data").
    { split.
      - rewrite Hes, dispatches_app.
        destruct (interceptor_events_quiet env w) as [-> _]. reflexivity.
      - subst c.
        destruct (intercepted_request env w (mergeConfig api_defaults cfg))
          as (-> & -> & -> & ->).
        rewrite intercepted_other_header by discriminate.
        repeat split. }
    destruct Hfacts as (Hd & Hfacts).
    destruct o as [r | t |]; cbn [ret];
      (exists c, (transport env (S (clock w)) c), (dispatches rest);
       split; [exact Hd |]; split; [reflexivity |];
       repeat (split; [apply Hfacts |]);
       intros r' Hreply; rewrite Hreply in Hrun; by simplify_eq).
  - intros error l cfg rt Hfirst Hget Hrt. cbn zeta.
    destruct (refresh_call_first env (api env fuel) error l cfg w rt) as [rest Hes];
      [intros c; apply grows_api | assumption | assumption | assumption |].
    exists (refresh_request rt), (refresh_calls rest).
    rewrite Hes. repeat split.
Qed.

Lemma login_and_refresh_requests_witness :
  (let '(out, w') := authService.login auth_server 2 player world_A1_R1 in
   exists c reply rest,
     dispatches (events_between world_A1_R1 w') = (length (heap world_A1_R1), c, reply) :: rest /\
     reply = transport auth_server (S (clock world_A1_R1)) c /\
     method c = POST /\ url c = "/auth/login" /\ baseURL c = Some API_BASE_URL /\
     body c = FormData [("email", "player@footbook.app"); ("password", "offside")] /\
     headers c !! "Content-Type" = Some "multipart/form-data" /\
     (forall r, reply = Resolve r -> out = Return (data r)))
  /\
  (let w' := snd (response_error_interceptor auth_server (api auth_server 1)
                    (error_on_first 401) world_A1_R1) in
   exists c rest,
     refresh_calls (events_between world_A1_R1 w') = c :: rest /\
     method c = POST /\ url c = API_BASE_URL ++ "/auth/refresh" /\
     baseURL c = None /\
     body c = JsonBody (VObject [("refreshToken", VString "R1")])).
Proof.
  destruct (login_and_refresh_requests auth_server 1 player world_A1_R1) as [Hlogin Hrefresh].
  split; [exact Hlogin |].
  apply (Hrefresh (error_on_first 401) 0
           (set_header "Authorization" "Bearer A1" (mergeConfig api_defaults stadiums)) "R1").
  - repeat split.
  - reflexivity.
  - split; [reflexivity | discriminate].
Defined.

(** The login of the scenario, evaluated: the endpoint's body comes back. *)
Example login_returns_the_pair :
  fst (authService.login auth_server 2 player world_empty) = Return (token_body "A1" "R1").
Proof. vm_compute. reflexivity. Qed.

(** ** The pair in the store *)

Lemma both_present (s : gmap string string) (a r : string) :
  both_or_neither (<["refreshToken" := r]> (<["accessToken" := a]> s)).
Proof.
  unfold both_or_neither. rewrite lookup_insert_eq.
  rewrite lookup_insert_ne by discriminate. rewrite lookup_insert_eq.
  split; eauto.
Qed.

Lemma both_absent (s : gmap string string) :
  both_or_neither (delete "refreshToken" (delete "accessToken" s)).
Proof.
  unfold both_or_neither. rewrite lookup_delete_eq.
  rewrite lookup_delete_ne by discriminate. rewrite lookup_delete_eq.
  split; intros [x H]; discriminate H.
Qed.

(** The claim C7 as stated fails: the store is empty, login writes the access
    token, the write of the refresh token throws, login rejects with that
    error, and the store is left with an access token and no refresh token. *)
Lemma login_can_leave_half_a_pair :
  both_or_neither (store world_empty) /\
  let '(out, w') := AuthProvider.login half_writing_store pair_A1_R1 world_empty in
  out = Throw (StoreErr (SetItem "refreshToken" (VString "R1"))) /\
  store w' !! "accessToken" = Some "A1" /\
  store w' !! "refreshToken" = None /\
  ~ both_or_neither (store w').
Proof.
  split.
  - split; intros [x H]; discriminate H.
  - vm_compute. repeat split.
    intros [H _]. destruct H as [x H]; [by eexists | discriminate H].
Qed.

Section Whole.

Variable env : Env.

(** With deletes that go through, the [try]/[catch] around the refresh leaves
    a whole pair or none: the store untouched, the new pair written, or both
    tokens deleted. *)
Lemma refresh_phase_keeps_pair_whole (o : option loc) (w : World) :
  deletes_succeed env ->
  both_or_neither (store w) ->
  both_or_neither (store (snd (try_catch (refresh_tokens env o) (clear_tokens env) w))).
Proof.
  intros Hdel Hw.
  unfold try_catch, refresh_tokens, clear_tokens, bind, getItemAsync, axios_post,
    destructure_tokens, setItemAsync, deleteItemAsync, assign_authorization,
    read_config, ret, throw.
  cbn [mbind option_bind]. wsimpl.
  repeat (case_match; wsimpl; simplify_eq);
    rewrite ?Hdel in *; simplify_eq; wsimpl;
    first [exact Hw | apply both_present | apply both_absent].
Qed.

End Whole.

Section WholePipeline.

Variable env : Env.

Hypothesis deletes : deletes_succeed env.

Lemma interceptor_keeps_pair_whole (fuel : nat) (error : Thrown) (w : World) :
  both_or_neither (store w) ->
  both_or_neither
    (store (snd (response_error_interceptor env (api env (S fuel)) error w))).
Proof.
  intros Hw.
  destruct (status_is 401 error) eqn:Hs;
    [| by rewrite pass_through by (left; exact Hs)].
  destruct (config_of error) as [l |] eqn:Hl.
  - destruct (heap w !! l) as [c |] eqn:Hc.
    + destruct (_retry c) eqn:Hr.
      * by rewrite pass_through by (right; exists l, c; repeat split; assumption).
      * rewrite (first_401_marks env _ error l c w) by (repeat split; assumption).
        unfold after_mark, bind at 1.
        pose proof (refresh_phase_keeps_pair_whole env (Some l) (marked l w) deletes Hw)
          as Hwhole.
        destruct (refresh_phase_bounds env l (set_retry_flag c) (marked l w))
          as (out2 & w2 & evs & Hrun & _ & _ & Hout);
          [by apply marked_lookup | reflexivity |].
        rewrite Hrun in Hwhole |- *. cbn [snd] in Hwhole.
        destruct out2 as [[c' |] | t |]; [| exact Hwhole | exact Hwhole | contradiction].
        destruct Hout as [Hr' _]. rewrite replay_run by exact Hr'. cbn zeta.
        cbn [snd]. case_match; exact Hwhole.
    + unfold response_error_interceptor, bind at 1. rewrite Hs.
      unfold bind at 1, read_config. rewrite Hl. cbn [mbind option_bind].
      rewrite Hc. exact Hw.
  - unfold response_error_interceptor, bind at 1. rewrite Hs.
    unfold bind at 1, read_config. rewrite Hl. exact Hw.
Qed.

Lemma api_keeps_pair_whole (fuel : nat) (cfg : Config) (w : World) :
  both_or_neither (store w) ->
  both_or_neither (store (snd (api env (S (S fuel)) cfg w))).
Proof.
  intros Hw. rewrite api_run. cbn zeta. case_match.
  - exact Hw.
  - by apply interceptor_keeps_pair_whole.
Qed.

End WholePipeline.

(** C7, amended. With a store that carries out every write, login ends with
    both tokens of the pair in the store; with a store that carries out every
    delete, logout ends with neither, and a call of the instance (with the
    refresh, its persistence and its cleanup inside) that starts with both or
    neither ends with both or neither. Nothing is said of a store call that
    throws midway. *)
Theorem pair_whole_with_a_working_store (env : Env) (fuel : nat) :
  (writes_succeed env ->
   forall (tokens : AuthProvider.TokenPair) (w : World),
     let '(out, w') := AuthProvider.login env tokens w in
     out = Return tt /\
     store w' !! "accessToken" = Some (AuthProvider.accessToken tokens) /\
     store w' !! "refreshToken" = Some (AuthProvider.refreshToken tokens) /\
     both_or_neither (store w'))
  /\
  (deletes_succeed env ->
   forall w : World,
     let '(out, w') := AuthProvider.logout env w in
     out = Return tt /\
     store w' !! "accessToken" = None /\
     store w' !! "refreshToken" = None /\
     both_or_neither (store w'))
  /\
  (deletes_succeed env ->
   forall (cfg : Config) (w : World),
     both_or_neither (store w) ->
     both_or_neither (store (snd (api env (S (S fuel)) cfg w))))
  /\
  (deletes_succeed env ->
   forall (error : Thrown) (w : World),
     both_or_neither (store w) ->
     both_or_neither
       (store (snd (response_error_interceptor env (api env (S fuel)) error w)))).
Proof.
  split; [| split; [| split]].
  - intros Hwrite tokens w.
    unfold AuthProvider.login, try_catch, bind, setItemAsync, AuthProvider.get_session,
      AuthProvider.set_session.
    wsimpl. rewrite !Hwrite. wsimpl.
    split; [reflexivity |]. split; [| split].
    + rewrite lookup_insert_ne by discriminate. apply lookup_insert_eq.
    + apply lookup_insert_eq.
    + apply both_present.
  - intros Hdel w.
    unfold AuthProvider.logout, try_catch, bind, deleteItemAsync, AuthProvider.get_session,
      AuthProvider.set_session.
    wsimpl. rewrite !Hdel. wsimpl.
    split; [reflexivity |]. split; [| split].
    + rewrite lookup_delete_ne by discriminate. apply lookup_delete_eq.
    + apply lookup_delete_eq.
    + apply both_absent.
  - intros Hdel cfg w. by apply api_keeps_pair_whole.
  - intros Hdel error w. by apply interceptor_keeps_pair_whole.
Qed.

Lemma pair_whole_with_a_working_store_witness :
  (let '(out, w') := AuthProvider.login rotating_server pair_A1_R1 world_empty in
   out = Return tt /\
   store w' !! "accessToken" = Some "A1" /\
   store w' !! "refreshToken" = Some "R1" /\
   both_or_neither (store w'))
  /\
  (let '(out, w') := AuthProvider.logout rotating_server world_start in
   out = Return tt /\
   store w' !! "accessToken" = None /\
   store w' !! "refreshToken" = None /\
   both_or_neither (store w'))
  /\
  both_or_neither (store (snd (api rotating_server 2 stadiums world_start)))
  /\
  both_or_neither
    (store (snd (response_error_interceptor rotating_server (api rotating_server 1)
                   (error_on_first 401) world_A1_R1))).
Proof.
  destruct (pair_whole_with_a_working_store rotating_server 0)
    as (Hlogin & Hlogout & Hapi & Hinterceptor).
  assert (Hw : writes_succeed rotating_server) by (intros t key value; reflexivity).
  assert (Hd : deletes_succeed rotating_server) by (intros t key; reflexivity).
  assert (Hs : both_or_neither store_A1_R1).
  { split; intros _; [exists "R1" | exists "A1"]; reflexivity. }
  split; [exact (Hlogin Hw pair_A1_R1 world_empty) |].
  split; [exact (Hlogout Hd world_start) |].
  split; [exact (Hapi Hd stadiums world_start Hs) |].
  exact (Hinterceptor Hd (error_on_first 401) world_A1_R1 Hs).
Defined.

(** * Further properties of the code *)

(** ** Relations that hold along every run of the pipeline *)

Lemma token_key_access : token_key "accessToken".
Proof. by left. Qed.

Lemma token_key_refresh : token_key "refreshToken".
Proof. by right. Qed.

Lemma keeps_flag_set_retry : keeps_flag set_retry_flag.
Proof. intros c _. reflexivity. Qed.

Lemma keeps_flag_set_header (name v : string) : keeps_flag (set_header name v).
Proof. intros c H. exact H. Qed.

Lemma keeps_flag_intercepted (env : Env) (w : World) : keeps_flag (intercepted env w).
Proof. intros c H. by rewrite intercepted_retry. Qed.

Section Stable.

Variable env : Env.
Variable R : World -> World -> Prop.
Hypothesis HR : stable R.

Lemma preserves_ret {A : Type} (a : A) : preserves R (ret a).
Proof. intros w. apply (stable_refl R HR). Qed.

Lemma preserves_throw {A : Type} (t : Thrown) : preserves R (@throw A t).
Proof. intros w. apply (stable_refl R HR). Qed.

Lemma preserves_bind {A B : Type} (m : M A) (k : A -> M B) :
  preserves R m -> (forall a, preserves R (k a)) -> preserves R (bind m k).
Proof.
  intros Hm Hk w. unfold bind. pose proof (Hm w) as H1.
  destruct (m w) as [[a | t |] w1]; cbn [snd] in H1 |- *; [| exact H1 | exact H1].
  eapply (stable_trans R HR); [exact H1 | apply Hk].
Qed.

Lemma preserves_try_catch {A : Type} (m : M A) (h : Thrown -> M A) :
  preserves R m -> (forall t, preserves R (h t)) -> preserves R (try_catch m h).
Proof.
  intros Hm Hh w. unfold try_catch. pose proof (Hm w) as H1.
  destruct (m w) as [[a | t |] w1]; cbn [snd] in H1 |- *; [exact H1 | | exact H1].
  eapply (stable_trans R HR); [exact H1 | apply Hh].
Qed.

Lemma stable_tick_record (e : Event) (w w0 : World) :
  R w w0 -> R w (tick (record e w0)).
Proof.
  intros H. eapply (stable_trans R HR); [exact H |].
  eapply (stable_trans R HR); [apply (stable_record R HR) | apply (stable_tick R HR)].
Qed.

Lemma preserves_console_error (label : string) : preserves R (console_error label).
Proof. intros w. apply (stable_record R HR). Qed.

Lemma preserves_getItemAsync (key : string) : preserves R (getItemAsync env key).
Proof.
  intros w. unfold getItemAsync.
  case_match; cbn [snd]; apply stable_tick_record, (stable_refl R HR).
Qed.

Lemma preserves_setItemAsync (key : string) (v : Value) :
  token_key key -> preserves R (setItemAsync env key v).
Proof.
  intros Hkey w. unfold setItemAsync.
  repeat case_match; cbn [snd]; apply stable_tick_record;
    first [apply (stable_refl R HR) | by apply (stable_write R HR)].
Qed.

Lemma preserves_deleteItemAsync (key : string) :
  token_key key -> preserves R (deleteItemAsync env key).
Proof.
  intros Hkey w. unfold deleteItemAsync.
  case_match; cbn [snd]; apply stable_tick_record;
    first [apply (stable_refl R HR) | by apply (stable_delete R HR)].
Qed.

Lemma preserves_alloc (c : Config) : preserves R (alloc c).
Proof. intros w. apply (stable_alloc R HR). Qed.

Lemma preserves_read_config (o : option loc) : preserves R (read_config o).
Proof. intros w. unfold read_config. case_match; apply (stable_refl R HR). Qed.

Lemma preserves_mark_retry (o : option loc) : preserves R (mark_retry o).
Proof.
  intros w. unfold mark_retry. destruct o as [l |]; cbn [snd]; [| apply (stable_refl R HR)].
  eapply (stable_trans R HR); [| apply (stable_record R HR)].
  apply (stable_alter R HR), keeps_flag_set_retry.
Qed.

Lemma preserves_assign_authorization (o : option loc) (v : string) :
  preserves R (assign_authorization o v).
Proof.
  intros w. unfold assign_authorization.
  destruct o as [l |]; cbn [snd]; [| apply (stable_refl R HR)].
  apply (stable_alter R HR), keeps_flag_set_header.
Qed.

Lemma preserves_dispatchRequest (l : loc) : preserves R (dispatchRequest env l).
Proof.
  intros w. unfold dispatchRequest.
  repeat case_match; cbn [snd];
    first [apply stable_tick_record, (stable_refl R HR) | apply (stable_refl R HR)].
Qed.

Lemma preserves_axios_post (target : string) (payload : Value) :
  preserves R (axios_post env target payload).
Proof.
  intros w. unfold axios_post.
  case_match; cbn [snd]; apply stable_tick_record, (stable_alloc R HR).
Qed.

Lemma preserves_destructure_tokens (d : Value) : preserves R (destructure_tokens d).
Proof.
  unfold destructure_tokens. destruct d; first [apply preserves_throw | apply preserves_ret].
Qed.

(** Goes through a computation of the pipeline along its binds, handlers and
    case distinctions. *)
Ltac solve_preserves :=
  repeat first
    [ apply preserves_bind; [| intros ?]
    | apply preserves_try_catch; [| intros ?]
    | apply preserves_ret
    | apply preserves_throw
    | apply preserves_console_error
    | apply preserves_getItemAsync
    | apply preserves_setItemAsync; first [apply token_key_access | apply token_key_refresh]
    | apply preserves_deleteItemAsync; first [apply token_key_access | apply token_key_refresh]
    | apply preserves_alloc
    | apply preserves_read_config
    | apply preserves_mark_retry
    | apply preserves_assign_authorization
    | apply preserves_dispatchRequest
    | apply preserves_axios_post
    | apply preserves_destructure_tokens
    | assumption
    | case_match ].

Lemma preserves_request_interceptor (l : loc) : preserves R (request_interceptor env l).
Proof. unfold request_interceptor. solve_preserves. Qed.

Lemma preserves_refresh_tokens (o : option loc) : preserves R (refresh_tokens env o).
Proof. unfold refresh_tokens. solve_preserves. Qed.

Lemma preserves_clear_tokens (t : Thrown) : preserves R (clear_tokens env t).
Proof. unfold clear_tokens. solve_preserves. Qed.

Lemma preserves_response_error_interceptor
    (replay : Config -> M Response) (error : Thrown) :
  (forall c, preserves R (replay c)) ->
  preserves R (response_error_interceptor env replay error).
Proof.
  intros Hreplay. pose proof preserves_refresh_tokens. pose proof preserves_clear_tokens.
  unfold response_error_interceptor. solve_preserves; apply Hreplay.
Qed.

Lemma preserves_api (fuel : nat) (cfg : Config) : preserves R (api env fuel cfg).
Proof.
  revert cfg. induction fuel as [| fuel IH]; intros cfg.
  - intros w. apply (stable_refl R HR).
  - cbn [api]. apply preserves_bind; [apply preserves_alloc |]. intros l.
    apply preserves_bind; [apply preserves_request_interceptor |]. intros l'.
    apply preserves_try_catch; [apply preserves_dispatchRequest |]. intros t.
    apply preserves_response_error_interceptor. exact IH.
Qed.

End Stable.

Lemma stable_same_session : stable same_session.
Proof.
  split; unfold same_session; intros; try reflexivity. congruence.
Qed.

Lemma stable_same_other_keys : stable same_other_keys.
Proof.
  split; unfold same_other_keys; intros; try reflexivity.
  - rewrite H0 by assumption. by apply H.
  - cbn [store with_store]. apply lookup_insert_ne. intros ->. contradiction.
  - cbn [store with_store]. apply lookup_delete_ne. intros ->. contradiction.
Qed.

Lemma stable_marks_kept : stable marks_kept.
Proof.
  split; unfold marks_kept.
  - intros w l c Hc Hr. eauto.
  - intros w1 w2 w3 H12 H23 l c Hc Hr.
    destruct (H12 l c Hc Hr) as (c2 & Hc2 & Hr2). eauto.
  - intros w l c Hc Hr. eauto.
  - intros e w l c Hc Hr. eauto.
  - intros key s w _ l c Hc Hr. eauto.
  - intros key w _ l c Hc Hr. eauto.
  - intros c0 w l c Hc Hr. exists c. split; [| exact Hr].
    cbn [heap with_heap]. by apply lookup_app_l_Some.
  - intros f l0 w Hf l c Hc Hr. cbn [heap with_heap].
    destruct (decide (l0 = l)) as [-> | Hne].
    + exists (f c). rewrite list_lookup_alter_eq, Hc. split; [reflexivity | by apply Hf].
    + exists c. by rewrite list_lookup_alter_ne.
Qed.

Lemma preserves_after_mark (env : Env) (R : World -> World -> Prop)
    (replay : Config -> M Response) (error : Thrown) (o : option loc) :
  stable R ->
  (forall c, preserves R (replay c)) ->
  preserves R (after_mark env replay error o).
Proof.
  intros HR Hreplay. unfold after_mark.
  apply (preserves_bind R HR).
  - apply (preserves_try_catch R HR);
      [apply (preserves_refresh_tokens env R HR) | apply (preserves_clear_tokens env R HR)].
  - intros [c |]; [apply Hreplay |].
    apply (preserves_bind R HR);
      [apply (preserves_console_error R HR) | intros _; apply (preserves_throw R HR)].
Qed.

(** ** What the pipeline never touches *)

(** X12. Neither a call of the instance nor a run of the response interceptor
    changes the state of [AuthProvider], in any environment: when a failed
    refresh has wiped the tokens from the store, the provider still says what
    it said before (the comment in the [catch] block: "You might want to
    trigger a logout here"). *)
Theorem pipeline_never_touches_session
    (env : Env) (fuel : nat) (cfg : Config) (error : Thrown) (w : World) :
  session (snd (api env fuel cfg w)) = session w /\
  session (snd (response_error_interceptor env (api env fuel) error w)) = session w.
Proof.
  split.
  - apply (preserves_api env same_session stable_same_session).
  - apply (preserves_response_error_interceptor env same_session stable_same_session).
    intros c. apply (preserves_api env same_session stable_same_session).
Qed.

(** A failed refresh under a session that says authenticated: the tokens are
    gone, the session says authenticated still. *)
Example wiped_store_authenticated_session :
  let w := mkWorld store_A1_R1 [] 0 [] (mkSession true (Some "A1") (Some "R1") false) in
  let w' := snd (api expired_server 2 stadiums w) in
  store w' !! "accessToken" = None /\ store w' !! "refreshToken" = None /\
  isAuthenticated (session w') = true.
Proof. vm_compute. repeat split. Qed.

(** X2. In any environment, a call of the instance writes and deletes nothing
    in the credential store but the keys accessToken and refreshToken: every
    other key holds afterwards what it held before, also when a failed
    refresh wipes the pair. *)
Theorem pipeline_touches_only_token_keys
    (env : Env) (fuel : nat) (cfg : Config) (w : World) (key : string) :
  key <> "accessToken" -> key <> "refreshToken" ->
  store (snd (api env fuel cfg w)) !! key = store w !! key.
Proof.
  intros Ha Hr.
  apply (preserves_api env same_other_keys stable_same_other_keys).
  intros [H | H]; contradiction.
Qed.

Lemma pipeline_touches_only_token_keys_witness :
  store (snd (api expired_server 2 stadiums world_with_theme)) !! "theme"
    = store world_with_theme !! "theme".
Proof.
  apply (pipeline_touches_only_token_keys expired_server 2 stadiums world_with_theme "theme");
    discriminate.
Defined.

(** The run of the witness does wipe the pair and keeps the third key. *)
Example wiped_pair_kept_theme :
  let w' := snd (api expired_server 2 stadiums world_with_theme) in
  store w' !! "accessToken" = None /\ store w' !! "refreshToken" = None /\
  store w' !! "theme" = Some "dark".
Proof. vm_compute. repeat split. Qed.

(** ** The mark on a request *)

(** X3. Once the response interceptor has handled a first 401 of a request,
    whatever the refresh did, the request object is marked as retried for
    good: handing the same error to the interceptor again, in the world the
    first run left, passes it through at once, with no refresh and no
    replay. *)
Theorem handled_401_is_not_handled_twice
    (env : Env) (fuel : nat) (replay : Config -> M Response) (error : Thrown)
    (l : loc) (c : Config) (w : World) :
  unauthorized_first_time w error l c ->
  let w' := snd (response_error_interceptor env (api env fuel) error w) in
  already_retried w' error /\
  response_error_interceptor env replay error w' =
    (Throw error, record (EvConsoleError "API Error:") w').
Proof.
  intros Hfirst. cbn zeta.
  assert (Hmarked : already_retried
            (snd (response_error_interceptor env (api env fuel) error w)) error).
  { pose proof Hfirst as (_ & Hl & Hc & _).
    rewrite (first_401_marks env _ error l c w Hfirst).
    pose proof (preserves_after_mark env marks_kept (api env fuel) error (Some l)
                  stable_marks_kept
                  (fun c' => preserves_api env marks_kept stable_marks_kept fuel c')
                  (marked l w)) as Hkept.
    destruct (Hkept l (set_retry_flag c) (marked_lookup l c w Hc) eq_refl)
      as (c' & Hc' & Hr').
    exists l, c'. repeat split; assumption. }
  split; [exact Hmarked |].
  apply pass_through. right. exact Hmarked.
Qed.

Lemma handled_401_is_not_handled_twice_witness :
  let w' := snd (response_error_interceptor rotating_server (api rotating_server 1)
                   (error_on_first 401) world_A1_R1) in
  already_retried w' (error_on_first 401) /\
  response_error_interceptor rotating_server (api rotating_server 1)
                             (error_on_first 401) w' =
    (Throw (error_on_first 401), record (EvConsoleError "API Error:") w').
Proof.
  apply (handled_401_is_not_handled_twice rotating_server 1 (api rotating_server 1)
           (error_on_first 401) 0
           (set_header "Authorization" "Bearer A1" (mergeConfig api_defaults stadiums))
           world_A1_R1).
  repeat split.
Defined.

(** ** A read of the refresh token that throws *)

(** X4. A first 401 whose read of the refresh token throws takes the cleanup
    path: the refresh endpoint is not called, nothing is sent again, and,
    with deletes that go through, both tokens are deleted (a valid stored
    pair included) and the caller gets the original 401. *)
Theorem unreadable_refresh_token_wipes_the_pair
    (env : Env) (replay : Config -> M Response) (error : Thrown)
    (l : loc) (c : Config) (w : World) :
  unauthorized_first_time w error l c ->
  store_fault env (clock w) (GetItem "refreshToken") = true ->
  deletes_succeed env ->
  let '(out, w') := response_error_interceptor env replay error w in
  out = Throw error /\
  store w' = delete "refreshToken" (delete "accessToken" (store w)) /\
  events_between w w' =
    [EvMarkRetry l;
     EvStore (GetItem "refreshToken") false;
     EvStore (DeleteItem "accessToken") true;
     EvStore (DeleteItem "refreshToken") true;
     EvConsoleError "API Error:"].
Proof.
  intros Hfirst Hget Hdel.
  rewrite (first_401_marks env _ error l c w Hfirst).
  unfold after_mark, bind at 1, try_catch, refresh_tokens, bind at 1, getItemAsync.
  wsimpl. rewrite Hget.
  rewrite clear_tokens_run by exact Hdel. rewrite log_and_reject. wsimpl.
  repeat split. read_events. reflexivity.
Qed.

Lemma unreadable_refresh_token_wipes_the_pair_witness :
  let '(out, w') :=
    response_error_interceptor forgetful_pipeline (api forgetful_pipeline 1)
                               (error_on_first 401) world_A1_R1 in
  out = Throw (error_on_first 401) /\
  store w' = delete "refreshToken" (delete "accessToken" (store world_A1_R1)) /\
  events_between world_A1_R1 w' =
    [EvMarkRetry 0;
     EvStore (GetItem "refreshToken") false;
     EvStore (DeleteItem "accessToken") true;
     EvStore (DeleteItem "refreshToken") true;
     EvConsoleError "API Error:"].
Proof.
  apply (unreadable_refresh_token_wipes_the_pair forgetful_pipeline
           (api forgetful_pipeline 1) (error_on_first 401) 0
           (set_header "Authorization" "Bearer A1" (mergeConfig api_defaults stadiums))
           world_A1_R1).
  - repeat split.
  - reflexivity.
  - intros t key. reflexivity.
Defined.

(** ** A call that is not answered 401 *)

Lemma is_401_status (l : loc) (r : option Response) (msg : string) :
  status_is 401 (AxiosErr (mkAxiosError (Some l) r msg)) = is_401 (Reject r msg).
Proof. unfold status_is, is_401. cbn. destruct r; reflexivity. Qed.

(** X1. A call of the instance whose one send is answered by anything but a
    401 (a response, another error status, a transport failure) settles with
    that answer as it is; the request was sent once, the refresh endpoint was
    not called, and the only store call is the read of the access token. *)
Theorem one_send_unless_401 (env : Env) (fuel : nat) (cfg : Config) (w : World) :
  let c := intercepted env w (mergeConfig api_defaults cfg) in
  let reply := transport env (S (clock w)) c in
  is_401 reply = false ->
  let '(out, w') := api env (S fuel) cfg w in
  let es := events_between w w' in
  out = settle (length (heap w)) reply /\
  dispatches es = [(length (heap w), c, reply)] /\
  refresh_calls es = [] /\
  store_calls es
    = [(GetItem "accessToken", negb (store_fault env (clock w) (GetItem "accessToken")))] /\
  store w' = store w.
Proof.
  cbn zeta. intros H401. rewrite api_run. cbn zeta.
  destruct (transport env (S (clock w)) (intercepted env w (mergeConfig api_defaults cfg)))
    as [r | r msg] eqn:Hreply.
  - unfold interceptor_events.
    destruct (store_fault env (clock w) (GetItem "accessToken")); cbn [negb];
      (split; [reflexivity |]); read_events; repeat split.
  - rewrite pass_through by (left; by rewrite is_401_status).
    unfold interceptor_events.
    destruct (store_fault env (clock w) (GetItem "accessToken")); cbn [negb];
      (split; [reflexivity |]); read_events; repeat split.
Qed.

Lemma one_send_unless_401_witness :
  let c := intercepted failing_server world_start (mergeConfig api_defaults stadiums) in
  let reply := transport failing_server (S (clock world_start)) c in
  let '(out, w') := api failing_server 1 stadiums world_start in
  let es := events_between world_start w' in
  out = settle (length (heap world_start)) reply /\
  dispatches es = [(length (heap world_start), c, reply)] /\
  refresh_calls es = [] /\
  store_calls es
    = [(GetItem "accessToken",
        negb (store_fault failing_server (clock world_start) (GetItem "accessToken")))] /\
  store w' = store world_start.
Proof.
  apply (one_send_unless_401 failing_server 0 stadiums world_start).
  reflexivity.
Defined.


(** ** When and with what the refresh endpoint is called *)

Section RefreshSummary.

Variable env : Env.

Ltac give_run w1 :=
  lazymatch goal with
  | |- exists out w2 evs, (?o, ?W) = (out, w2) /\ _ =>
      let t := eval cbn [tick record with_store with_heap with_session marked
                         clock store heap trace session app] in (trace W) in
      let p := trace_prefix t (trace w1) in
      let evs := eval cbn [rev app] in (rev p) in
      exists o, W, evs
  end.

(** The [try]/[catch] around the refresh in any environment: nothing is sent
    through the instance; the refresh endpoint is called at most once, and
    then with the non-empty refresh token of the store; a request handed back
    for the replay is marked; the computation returns. *)
Lemma refresh_phase_summary (l : loc) (c1 : Config) (w1 : World) :
  heap w1 !! l = Some c1 -> _retry c1 = true ->
  exists out w2 evs,
    try_catch (refresh_tokens env (Some l)) (clear_tokens env) w1 = (out, w2) /\
    trace w2 = (rev evs ++ trace w1)%list /\
    dispatches evs = [] /\
    (refresh_calls evs = [] \/
     exists rt, holds w1 "refreshToken" rt /\ refresh_calls evs = [refresh_request rt]) /\
    match out with
    | Return (Some c') => _retry c' = true
    | OutOfFuel => False
    | _ => True
    end.
Proof.
  intros Hc Hr.
  unfold try_catch, refresh_tokens, clear_tokens, bind, getItemAsync, axios_post,
    destructure_tokens, setItemAsync, deleteItemAsync, assign_authorization,
    read_config, ret, throw.
  cbn [mbind option_bind]. wsimpl.
  repeat (case_match; wsimpl; simplify_eq);
    give_run w1; (split; [reflexivity |]); (split; [reflexivity |]);
    (split; [reflexivity |]);
    (split;
     [first [ left; reflexivity
            | right; eexists; split;
              [split; [eassumption | by apply String.eqb_neq] | reflexivity] ]
     |]);
    try exact I.
  match goal with
  | H : _ !! _ = Some ?c |- _retry ?c = true =>
      cbn [tick record with_store with_heap clock store heap trace session] in H;
      rewrite list_lookup_alter_eq, (lookup_app_l_Some _ _ _ _ Hc) in H;
      cbn in H; simplify_eq; exact Hr
  end.
Qed.

(** With fuel for the original send and one replay, a call returns. *)
Lemma api_returns (fuel : nat) (cfg : Config) (w : World) :
  fst (api env (S (S fuel)) cfg w) <> OutOfFuel.
Proof.
  rewrite api_run. cbn zeta.
  set (c := intercepted env w (mergeConfig api_defaults cfg)).
  match goal with |- context [response_error_interceptor _ _ _ ?ww] => set (w1 := ww) end.
  assert (Hc : heap w1 !! length (heap w) = Some c) by (apply list_lookup_middle; reflexivity).
  destruct (transport env (S (clock w)) c) as [r | r msg]; [discriminate |].
  set (error := AxiosErr (mkAxiosError (Some (length (heap w))) r msg)).
  destruct (status_is 401 error) eqn:Hs; [destruct (_retry c) eqn:Hretry |].
  - rewrite pass_through by (right; exists (length (heap w)), c; repeat split; assumption).
    discriminate.
  - rewrite (first_401_marks env _ error (length (heap w)) c w1)
      by (repeat split; assumption).
    unfold after_mark, bind at 1.
    destruct (refresh_phase_summary (length (heap w)) (set_retry_flag c)
                (marked (length (heap w)) w1))
      as (out2 & w2 & evs & Hrun & _ & _ & _ & Hout);
      [by apply marked_lookup | reflexivity |].
    rewrite Hrun.
    destruct out2 as [[c' |] | t |]; [| discriminate | discriminate | contradiction].
    rewrite replay_run by exact Hout. cbn [fst]. unfold settle. case_match; discriminate.
  - rewrite pass_through by (left; exact Hs). discriminate.
Qed.

End RefreshSummary.

(** X6. In any environment, a call of the instance calls the refresh endpoint
    only after its send of a request not marked as retried was answered 401,
    and only with the non-empty refresh token that the store held when the
    call began; with no refresh token in the store, no refresh call is ever
    made. *)
Theorem refresh_only_after_401_with_stored_token
    (env : Env) (fuel : nat) (cfg : Config) (w : World) (call : Config) :
  In call (refresh_calls (events_between w (snd (api env (S (S fuel)) cfg w)))) ->
  exists rt,
    holds w "refreshToken" rt /\
    call = refresh_request rt /\
    _retry cfg = false /\
    is_401 (transport env (S (clock w))
              (intercepted env w (mergeConfig api_defaults cfg))) = true.
Proof.
  rewrite api_run. cbn zeta.
  set (c := intercepted env w (mergeConfig api_defaults cfg)).
  set (l := length (heap w)).
  set (ie := interceptor_events env w).
  destruct (interceptor_events_quiet env w) as [_ Hier]. fold ie in Hier.
  match goal with |- context [response_error_interceptor _ _ _ ?ww] => set (w1 := ww) end.
  assert (Hc : heap w1 !! l = Some c) by (apply list_lookup_middle; reflexivity).
  destruct (transport env (S (clock w)) c) as [r | r msg] eqn:Hreply.
  - cbn [snd]. chronological (rev ie ++ [EvDispatch l c (Resolve r)])%list.
    rewrite refresh_calls_app, Hier. intros [].
  - set (error := AxiosErr (mkAxiosError (Some l) r msg)).
    pose proof (is_401_status l r msg) as H401. fold error in H401.
    destruct (status_is 401 error) eqn:Hs; [destruct (_retry c) eqn:Hretry |].
    + rewrite pass_through by (right; exists l, c; repeat split; assumption).
      cbn [snd].
      chronological (rev ie ++ [EvDispatch l c (Reject r msg); EvConsoleError "API Error:"])%list.
      rewrite refresh_calls_app, Hier. intros [].
    + rewrite (first_401_marks env _ error l c w1) by (repeat split; assumption).
      unfold after_mark, bind at 1.
      destruct (refresh_phase_summary env l (set_retry_flag c) (marked l w1))
        as (out2 & w2 & evs & Hrun & Htr & _ & Hcalls & Hout);
        [by apply marked_lookup | reflexivity |].
      rewrite Hrun.
      assert (Hgoal : In call (refresh_calls evs) ->
                exists rt, holds w "refreshToken" rt /\ call = refresh_request rt /\
                           _retry cfg = false /\ is_401 (Reject r msg) = true).
      { intros Hin. destruct Hcalls as [Hnone | (rt & Hrt & Hone)].
        - rewrite Hnone in Hin. destruct Hin.
        - rewrite Hone in Hin. destruct Hin as [<- | []].
          exists rt. split; [exact Hrt |]. split; [reflexivity |].
          split; [| by rewrite <- H401].
          subst c. by rewrite intercepted_retry, mergeConfig_retry in Hretry. }
      destruct out2 as [[c' |] | t |]; [| | | contradiction].
      * rewrite replay_run by exact Hout. cbn zeta. cbn [snd].
        set (c2 := intercepted env w2 (mergeConfig api_defaults c')).
        set (ie2 := interceptor_events env w2).
        destruct (interceptor_events_quiet env w2) as [_ Hier2]. fold ie2 in Hier2.
        destruct (transport env (S (clock w2)) c2) as [r2 | r2 msg2].
        -- chronological (rev ie ++ [EvDispatch l c (Reject r msg); EvMarkRetry l] ++ evs
                            ++ rev ie2 ++ [EvDispatch (length (heap w2)) c2 (Resolve r2)])%list;
             [| by rewrite Htr].
           rewrite !refresh_calls_app, Hier, Hier2. cbn. rewrite app_nil_r. exact Hgoal.
        -- chronological (rev ie ++ [EvDispatch l c (Reject r msg); EvMarkRetry l] ++ evs
                            ++ rev ie2 ++ [EvDispatch (length (heap w2)) c2 (Reject r2 msg2);
                                           EvConsoleError "API Error:"])%list;
             [| by rewrite Htr].
           rewrite !refresh_calls_app, Hier, Hier2. cbn. rewrite app_nil_r. exact Hgoal.
      * rewrite log_and_reject. cbn [snd].
        chronological (rev ie ++ [EvDispatch l c (Reject r msg); EvMarkRetry l] ++ evs
                         ++ [EvConsoleError "API Error:"])%list;
          [| by rewrite Htr].
        rewrite !refresh_calls_app, Hier. cbn. rewrite app_nil_r. exact Hgoal.
      * cbn [snd].
        chronological (rev ie ++ [EvDispatch l c (Reject r msg); EvMarkRetry l] ++ evs ++ [])%list;
          [| by rewrite Htr].
        rewrite !refresh_calls_app, Hier. cbn. rewrite app_nil_r. exact Hgoal.
    + rewrite pass_through by (left; exact Hs). cbn [snd].
      chronological (rev ie ++ [EvDispatch l c (Reject r msg); EvConsoleError "API Error:"])%list.
      rewrite refresh_calls_app, Hier. intros [].
Qed.

Lemma refresh_only_after_401_with_stored_token_witness :
  exists rt,
    holds world_start "refreshToken" rt /\
    refresh_request "R1" = refresh_request rt /\
    _retry stadiums = false /\
    is_401 (transport rotating_server (S (clock world_start))
              (intercepted rotating_server world_start
                 (mergeConfig api_defaults stadiums))) = true.
Proof.
  apply (refresh_only_after_401_with_stored_token rotating_server 0 stadiums world_start
           (refresh_request "R1")).
  vm_compute. left. reflexivity.
Defined.

(** ** services/auth.ts: signup *)


(** A signup with a picture against the scenario server: seven fields go
    out, the pair comes back. *)
Example signup_with_picture :
  let '(out, w') := authService.signup signup_server 2 rookie world_empty in
  out = Return (token_body "A1" "R1") /\
  map body (sent (events_between world_empty w'))
    = [FormData [("firstName", "Ada"); ("lastName", "Hegerberg");
                 ("email", "ada@footbook.app"); ("phoneNumber", "+4700000000");
                 ("password", "offside"); ("skillLevel", "Advanced");
                 ("profilePicture", "file:///profile.jpg")]].
Proof. vm_compute. split; reflexivity. Qed.

(** ** contexts/AuthContext.tsx: login, logout, loadTokens *)

(** X8. Login of the provider in any environment, by which of its two writes
    throws: with both writes through, the store holds the pair and the state
    says authenticated with the same two tokens; when a write throws, the
    error is logged and thrown again as it is and the state is untouched, the
    store being as before (first write) or holding the new access token
    beside the old refresh token or none (second write). *)
Theorem provider_login_outcomes
    (env : Env) (tokens : AuthProvider.TokenPair) (w : World) :
  let a := AuthProvider.accessToken tokens in
  let r := AuthProvider.refreshToken tokens in
  let write_a := SetItem "accessToken" (VString a) in
  let write_r := SetItem "refreshToken" (VString r) in
  let '(out, w') := AuthProvider.login env tokens w in
  (store_fault env (clock w) write_a = false /\
   store_fault env (S (clock w)) write_r = false /\
   out = Return tt /\
   store w' = <["refreshToken" := r]> (<["accessToken" := a]> (store w)) /\
   session w' = mkSession true (Some a) (Some r) (loading (session w)))
  \/
  (store_fault env (clock w) write_a = true /\
   out = Throw (StoreErr write_a) /\
   store w' = store w /\ session w' = session w /\
   head (trace w') = Some (EvConsoleError "Error storing tokens:"))
  \/
  (store_fault env (clock w) write_a = false /\
   store_fault env (S (clock w)) write_r = true /\
   out = Throw (StoreErr write_r) /\
   store w' = <["accessToken" := a]> (store w) /\ session w' = session w /\
   head (trace w') = Some (EvConsoleError "Error storing tokens:")).
Proof.
  cbn zeta.
  unfold AuthProvider.login, try_catch, bind, setItemAsync, AuthProvider.get_session,
    AuthProvider.set_session, console_error, throw.
  wsimpl.
  destruct (store_fault env (clock w) _) eqn:H1; wsimpl.
  - right. left. repeat split.
  - destruct (store_fault env (S (clock w)) _) eqn:H2; wsimpl.
    + right. right. repeat split.
    + left. repeat split.
Qed.

(** X9. Logout of the provider never rejects. With both deletes through, both
    tokens are gone and the state says signed out; when a delete throws, the
    error is logged and swallowed and the state is left as it was (still
    authenticated if it was), the store being as before (first delete) or
    without the access token only (second delete). *)
Theorem provider_logout_outcomes (env : Env) (w : World) :
  let '(out, w') := AuthProvider.logout env w in
  out = Return tt /\
  ((store_fault env (clock w) (DeleteItem "accessToken") = false /\
    store_fault env (S (clock w)) (DeleteItem "refreshToken") = false /\
    store w' = delete "refreshToken" (delete "accessToken" (store w)) /\
    session w' = mkSession false None None (loading (session w)))
   \/
   (store_fault env (clock w) (DeleteItem "accessToken") = true /\
    store w' = store w /\ session w' = session w /\
    head (trace w') = Some (EvConsoleError "Error removing tokens:"))
   \/
   (store_fault env (clock w) (DeleteItem "accessToken") = false /\
    store_fault env (S (clock w)) (DeleteItem "refreshToken") = true /\
    store w' = delete "accessToken" (store w) /\ session w' = session w /\
    head (trace w') = Some (EvConsoleError "Error removing tokens:"))).
Proof.
  unfold AuthProvider.logout, try_catch, bind, deleteItemAsync, AuthProvider.get_session,
    AuthProvider.set_session, console_error.
  wsimpl.
  destruct (store_fault env (clock w) _) eqn:H1; wsimpl.
  - split; [reflexivity |]. right. left. repeat split.
  - destruct (store_fault env (S (clock w)) _) eqn:H2; wsimpl.
    + split; [reflexivity |]. right. right. repeat split.
    + split; [reflexivity |]. left. repeat split.
Qed.

(** A logout whose second delete throws: the caller sees no error, the state
    still says authenticated, and the refresh token is still in the store. *)
Example silent_half_logout :
  let env := mkEnv (fun _ op => match op with DeleteItem "refreshToken" => true | _ => false end)
                   (fun _ _ => server_error) in
  let w := mkWorld store_A1_R1 [] 0 [] (mkSession true (Some "A1") (Some "R1") false) in
  let '(out, w') := AuthProvider.logout env w in
  out = Return tt /\ isAuthenticated (session w') = true /\
  store w' !! "accessToken" = None /\ store w' !! "refreshToken" = Some "R1".
Proof. vm_compute. repeat split. Qed.

(** X10. Loading the tokens at launch, in any environment: it never rejects,
    never changes the store, and always ends with [loading] false. It never
    signs out: it either leaves the rest of the state as it was, or, when
    both reads go through and both tokens are non-empty, sets the state to
    authenticated with exactly the two stored tokens. *)
Theorem load_tokens_outcomes (env : Env) (w : World) :
  let '(out, w') := AuthProvider.loadTokens env w in
  out = Return tt /\
  store w' = store w /\
  loading (session w') = false /\
  ((isAuthenticated (session w') = isAuthenticated (session w) /\
    accessToken (session w') = accessToken (session w) /\
    refreshToken (session w') = refreshToken (session w))
   \/
   (exists a r,
      store_fault env (clock w) (GetItem "accessToken") = false /\
      store_fault env (S (clock w)) (GetItem "refreshToken") = false /\
      holds w "accessToken" a /\ holds w "refreshToken" r /\
      session w' = mkSession true (Some a) (Some r) false)) /\
  (forall a r,
     store_fault env (clock w) (GetItem "accessToken") = false ->
     store_fault env (S (clock w)) (GetItem "refreshToken") = false ->
     holds w "accessToken" a -> holds w "refreshToken" r ->
     session w' = mkSession true (Some a) (Some r) false).
Proof.
  unfold AuthProvider.loadTokens, try_catch, bind, getItemAsync, AuthProvider.get_session,
    AuthProvider.set_session, console_error, ret.
  wsimpl.
  destruct (store_fault env (clock w) (GetItem "accessToken")) eqn:H1; wsimpl.
  { destruct (session w) eqn:Hs. cbn. repeat split; [by left | discriminate]. }
  destruct (store_fault env (S (clock w)) (GetItem "refreshToken")) eqn:H2; wsimpl.
  { destruct (session w) eqn:Hs. cbn. repeat split; [by left | discriminate]. }
  unfold AuthProvider.is_set, holds.
  destruct (store w !! "accessToken") as [a |] eqn:Ha;
    [destruct (String.eqb a "") eqn:Hae |];
    (destruct (store w !! "refreshToken") as [r |] eqn:Hr;
     [destruct (String.eqb r "") eqn:Hre |]);
    cbn [negb andb]; wsimpl;
    try (destruct (session w) eqn:Hs; cbn;
         repeat split; [by left |];
         intros a' r' _ _ [Ha' Hna] [Hr' Hnr]; simplify_eq;
         solve [ apply String.eqb_eq in Hae; contradiction
               | apply String.eqb_eq in Hre; contradiction ]).
  apply String.eqb_neq in Hae, Hre.
  repeat split.
  - right. exists a, r. repeat split; assumption.
  - intros a' r' _ _ [Ha' _] [Hr' _]. by simplify_eq.
Qed.

Lemma load_tokens_outcomes_witness :
  session (snd (AuthProvider.loadTokens rotating_server world_start))
    = mkSession true (Some "A1") (Some "R1") false.
Proof.
  pose proof (load_tokens_outcomes rotating_server world_start) as H.
  destruct (AuthProvider.loadTokens rotating_server world_start) as [out w'].
  destruct H as (_ & _ & _ & _ & H).
  apply H.
  - reflexivity.
  - reflexivity.
  - split; [reflexivity | discriminate].
  - split; [reflexivity | discriminate].
Defined.

Section Reliable.

Variable env : Env.
Hypothesis reliable : store_reliable env.

Lemma provider_login_run (tokens : AuthProvider.TokenPair) (w : World) :
  AuthProvider.login env tokens w =
    (Return tt,
     mkWorld (<["refreshToken" := AuthProvider.refreshToken tokens]>
                (<["accessToken" := AuthProvider.accessToken tokens]> (store w)))
             (heap w) (2 + clock w)
             (EvStore (SetItem "refreshToken" (VString (AuthProvider.refreshToken tokens))) true
                :: EvStore (SetItem "accessToken" (VString (AuthProvider.accessToken tokens))) true
                :: trace w)
             (mkSession true (Some (AuthProvider.accessToken tokens))
                        (Some (AuthProvider.refreshToken tokens)) (loading (session w)))).
Proof.
  unfold AuthProvider.login, try_catch, bind, setItemAsync, AuthProvider.get_session,
    AuthProvider.set_session.
  wsimpl. by rewrite !reliable.
Qed.

Lemma provider_logout_run (w : World) :
  AuthProvider.logout env w =
    (Return tt,
     mkWorld (delete "refreshToken" (delete "accessToken" (store w)))
             (heap w) (2 + clock w)
             (EvStore (DeleteItem "refreshToken") true
                :: EvStore (DeleteItem "accessToken") true :: trace w)
             (mkSession false None None (loading (session w)))).
Proof.
  unfold AuthProvider.logout, try_catch, bind, deleteItemAsync, AuthProvider.get_session,
    AuthProvider.set_session.
  wsimpl. by rewrite !reliable.
Qed.

Lemma load_tokens_run (w : World) :
  AuthProvider.loadTokens env w =
    (Return tt,
     mkWorld (store w) (heap w) (2 + clock w)
             (EvStore (GetItem "refreshToken") true
                :: EvStore (GetItem "accessToken") true :: trace w)
             (if AuthProvider.is_set (store w !! "accessToken")
                 && AuthProvider.is_set (store w !! "refreshToken")
              then mkSession true (store w !! "accessToken") (store w !! "refreshToken") false
              else mkSession (isAuthenticated (session w)) (accessToken (session w))
                             (refreshToken (session w)) false)).
Proof.
  unfold AuthProvider.loadTokens, try_catch, bind, getItemAsync, AuthProvider.get_session,
    AuthProvider.set_session, ret.
  wsimpl. rewrite !reliable. wsimpl.
  destruct (AuthProvider.is_set (store w !! "accessToken")
            && AuthProvider.is_set (store w !! "refreshToken"));
    wsimpl; [reflexivity |].
  by destruct (session w).
Qed.

End Reliable.

(** X11. What login stores, the next launch reads back, and what logout
    deletes, the next launch no longer finds: with a store that does not
    fail and a pair of non-empty tokens, login followed by a relaunch and
    the loading of the tokens gives the authenticated state with the same
    pair, and a logout followed by another relaunch and loading gives the
    signed-out state with no token in the store. *)
Theorem stored_pair_survives_relaunch
    (env : Env) (tokens : AuthProvider.TokenPair) (w : World) :
  store_reliable env ->
  AuthProvider.accessToken tokens <> "" ->
  AuthProvider.refreshToken tokens <> "" ->
  let a := AuthProvider.accessToken tokens in
  let r := AuthProvider.refreshToken tokens in
  let w1 := snd (AuthProvider.login env tokens w) in
  let w2 := snd (AuthProvider.loadTokens env (relaunch w1)) in
  let w3 := snd (AuthProvider.logout env w2) in
  let w4 := snd (AuthProvider.loadTokens env (relaunch w3)) in
  session w2 = mkSession true (Some a) (Some r) false /\
  store w2 !! "accessToken" = Some a /\ store w2 !! "refreshToken" = Some r /\
  session w4 = mkSession false None None false /\
  store w4 !! "accessToken" = None /\ store w4 !! "refreshToken" = None.
Proof.
  intros Hrel Ha Hr. cbn zeta.
  apply String.eqb_neq in Ha, Hr.
  rewrite (provider_login_run env Hrel). cbn [snd].
  rewrite (load_tokens_run env Hrel). cbn [snd]. unfold relaunch. wsimpl.
  rewrite (provider_logout_run env Hrel). cbn [snd]. wsimpl.
  rewrite (load_tokens_run env Hrel). cbn [snd]. wsimpl.
  rewrite !lookup_insert_eq.
  rewrite !(lookup_insert_ne _ "refreshToken" "accessToken") by discriminate.
  rewrite !lookup_insert_eq.
  rewrite !lookup_delete_eq.
  rewrite !(lookup_delete_ne _ "refreshToken" "accessToken") by discriminate.
  rewrite !lookup_delete_eq.
  unfold AuthProvider.is_set. rewrite Ha, Hr. cbn [negb andb].
  repeat split.
Qed.

Lemma stored_pair_survives_relaunch_witness :
  let w1 := snd (AuthProvider.login rotating_server pair_A1_R1 world_empty) in
  let w2 := snd (AuthProvider.loadTokens rotating_server (relaunch w1)) in
  let w3 := snd (AuthProvider.logout rotating_server w2) in
  let w4 := snd (AuthProvider.loadTokens rotating_server (relaunch w3)) in
  session w2 = mkSession true (Some "A1") (Some "R1") false /\
  store w2 !! "accessToken" = Some "A1" /\ store w2 !! "refreshToken" = Some "R1" /\
  session w4 = mkSession false None None false /\
  store w4 !! "accessToken" = None /\ store w4 !! "refreshToken" = None.
Proof.
  apply (stored_pair_survives_relaunch rotating_server pair_A1_R1 world_empty).
  - intros t op. reflexivity.
  - discriminate.
  - discriminate.
Defined.

(** The precondition on the tokens is a real one: with an empty access token,
    login says authenticated and the next launch does not. *)
Example empty_token_does_not_survive_relaunch :
  let w1 := snd (AuthProvider.login rotating_server (AuthProvider.mkTokenPair "" "R1")
                   world_empty) in
  let w2 := snd (AuthProvider.loadTokens rotating_server (relaunch w1)) in
  isAuthenticated (session w1) = true /\ isAuthenticated (session w2) = false.
Proof. vm_compute. split; reflexivity. Qed.

(** The provider's login on whatever value the screen hands it: it returns
    only when both fields are strings and both writes went through, and then
    the store and the state hold that pair; when it throws, the state of the
    provider is the one it started with. *)
Lemma runtime_login_outcomes (env : Env) (tokens : Value) (w : World) :
  match AuthProviderRuntime.login env tokens w with
  | (Return _, w') =>
      exists a r,
        get_field "accessToken" tokens = VString a /\
        get_field "refreshToken" tokens = VString r /\
        session w' = mkSession true (Some a) (Some r) (loading (session w)) /\
        store w' !! "accessToken" = Some a /\ store w' !! "refreshToken" = Some r
  | (Throw _, w') => session w' = session w
  | (OutOfFuel, _) => False
  end.
Proof.
  unfold AuthProviderRuntime.login, AuthProviderRuntime.property, try_catch, bind,
    setItemAsync, AuthProvider.get_session, AuthProvider.set_session, console_error,
    throw, ret.
  repeat (case_match; wsimpl; simplify_eq); try reflexivity.
  all: eexists _, _; repeat split; try eassumption.
  all: wsimpl; try (rewrite lookup_insert_ne by discriminate); wsimpl;
    by rewrite lookup_insert_eq.
Qed.

(** X13. Submitting the login form always settles and always ends with the
    loading flag off, whatever the server and the store do: either no alert
    is shown, and then the provider is authenticated with a pair of strings
    that the store holds too; or exactly one alert titled "Login Failed" is
    added after the ones already shown, and then the state of the provider
    is untouched. *)
Theorem login_screen_submit
    (env : Env) (fuel : nat) (credentials : authService.LoginRequest)
    (s : LoginScreen.ScreenState) (w : World) :
  match LoginScreen.onSubmit env (S (S fuel)) credentials s w with
  | (out, s', w') =>
      out = Return tt /\ LoginScreen.loading s' = false /\
      ((LoginScreen.alerts s' = LoginScreen.alerts s /\
        exists a r,
          session w' = mkSession true (Some a) (Some r) (loading (session w)) /\
          store w' !! "accessToken" = Some a /\ store w' !! "refreshToken" = Some r)
       \/
       (exists error,
          LoginScreen.alerts s' =
            (LoginScreen.alerts s ++ [("Login Failed", LoginScreen.alert_text error)])%list /\
          session w' = session w))
  end.
Proof.
  unfold LoginScreen.onSubmit, LoginScreen.sign_in, authService.login, api_post, bind, ret.
  cbv zeta.
  match goal with |- context [api env (S (S fuel)) ?c w] => set (cfg := c) end.
  pose proof (api_returns env fuel cfg w) as Hret.
  pose proof (preserves_api env same_session stable_same_session (S (S fuel)) cfg w) as Hsess.
  unfold same_session in Hsess.
  destruct (api env (S (S fuel)) cfg w) as [[response | error |] w1];
    cbn [fst snd] in Hret, Hsess; [| | congruence].
  - pose proof (runtime_login_outcomes env (data response) w1) as Hlogin.
    destruct (AuthProviderRuntime.login env (data response) w1) as [[[] | error |] w2];
      cbn [LoginScreen.loading LoginScreen.alerts]; [| | contradiction].
    + destruct Hlogin as (a & r & _ & _ & Hs & Ha & Hr).
      repeat split. left. split; [reflexivity |].
      exists a, r. rewrite Hs, Hsess. repeat split; assumption.
    + repeat split. right. exists error. split; [reflexivity | congruence].
  - cbn [LoginScreen.loading LoginScreen.alerts].
    repeat split. right. exists error. split; [reflexivity | assumption].
Qed.

(** The three ways out of the login screen's submit: signed in; turned down
    with the server's message; and a 200 answer with an empty body, which
    ends in the general message because reading a field of [null] throws
    inside the provider. *)
Example login_screen_signs_in :
  match LoginScreen.onSubmit auth_server 2 player idle_screen world_empty with
  | (out, s', w') =>
      out = Return tt /\ s' = idle_screen /\
      session w' = mkSession true (Some "A1") (Some "R1") false
  end.
Proof. vm_compute. repeat split. Qed.

Example login_screen_shows_server_message :
  match LoginScreen.onSubmit strict_server 2 player idle_screen world_empty with
  | (out, s', w') =>
      out = Return tt /\
      s' = LoginScreen.mkScreen false [("Login Failed", VString "Invalid credentials")] /\
      session w' = signed_out
  end.
Proof. vm_compute. repeat split. Qed.

Example login_screen_empty_body :
  match LoginScreen.onSubmit hollow_server 2 player idle_screen world_empty with
  | (out, s', w') =>
      out = Return tt /\
      s' = LoginScreen.mkScreen false [("Login Failed", VString LoginScreen.fallback)] /\
      session w' = signed_out /\ store w' = ∅
  end.
Proof. vm_compute. repeat split. Qed.

(** ** components/ui/Picker.tsx *)

Lemma selectedItem_some (items : list Picker.Item) (v : string) (item : Picker.Item) :
  Picker.selectedItem items v = Some item -> item ∈ items /\ Picker.value item = v.
Proof.
  unfold Picker.selectedItem. induction items as [| first rest IH]; cbn [find]; [discriminate |].
  destruct (String.eqb (Picker.value first) v) eqn:Hv.
  - intros [= <-]. split; [apply list_elem_of_here | by apply String.eqb_eq].
  - intros H. destruct (IH H) as [Hin Heq]. split; [by apply list_elem_of_further | exact Heq].
Qed.

Lemma selectedItem_none (items : list Picker.Item) (v : string) :
  Picker.selectedItem items v = None <-> v ∉ Picker.value <$> items.
Proof.
  unfold Picker.selectedItem. induction items as [| first rest IH]; cbn [find fmap list_fmap].
  - split; [intros _; apply not_elem_of_nil | reflexivity].
  - destruct (String.eqb (Picker.value first) v) eqn:Hv.
    + apply String.eqb_eq in Hv. split; [discriminate |].
      intros H. exfalso. apply H. rewrite Hv. apply list_elem_of_here.
    + apply String.eqb_neq in Hv. rewrite IH, not_elem_of_cons.
      split; [intros H; split; [congruence | exact H] | intros [_ H]; exact H].
Qed.

Lemma selectedItem_unique (items : list Picker.Item) (item : Picker.Item) :
  NoDup (Picker.value <$> items) -> item ∈ items ->
  Picker.selectedItem items (Picker.value item) = Some item.
Proof.
  unfold Picker.selectedItem. induction items as [| first rest IH]; cbn [find fmap list_fmap].
  - intros _ H. by apply elem_of_nil in H.
  - intros [Hfirst Hrest]%NoDup_cons [-> | Hin]%elem_of_cons.
    + by rewrite String.eqb_refl.
    + destruct (String.eqb (Picker.value first) (Picker.value item)) eqn:Hv.
      * apply String.eqb_eq in Hv. exfalso. apply Hfirst. rewrite Hv.
        apply list_elem_of_fmap. by exists item.
      * by apply IH.
Qed.

(** X14. Pressing an option of a picker whose options have distinct values
    closes the list, and with the value handed to the form the closed picker
    shows the label of that option, not in the placeholder style, and the
    check mark stands on that option and on no other. *)
Theorem picker_shows_pressed_option
    (items : list Picker.Item) (placeholder : string)
    (item : Picker.Item) (s : Picker.State) :
  NoDup (Picker.value <$> items) ->
  item ∈ items ->
  let s' := Picker.press item s in
  Picker.modalVisible s' = false /\
  Picker.shown items placeholder (Picker.current s') = Picker.label item /\
  Picker.placeholder_style items (Picker.current s') = false /\
  forall other, other ∈ items ->
    (Picker.checked (Picker.current s') other = true <-> other = item).
Proof.
  intros Hnodup Hin. cbn zeta.
  unfold Picker.press, Picker.shown, Picker.placeholder_style, Picker.checked.
  cbn [Picker.current Picker.modalVisible].
  rewrite (selectedItem_unique items item Hnodup Hin).
  repeat split.
  - intros Hv%String.eqb_eq.
    pose proof (selectedItem_unique items other Hnodup H) as Hother.
    rewrite Hv, (selectedItem_unique items item Hnodup Hin) in Hother. congruence.
  - intros ->. apply String.eqb_refl.
Qed.

Lemma picker_shows_pressed_option_witness :
  let s' := Picker.press (Picker.mkItem "Advanced" "Advanced") (Picker.mkState "" true) in
  Picker.modalVisible s' = false /\
  Picker.shown skillLevelOptions "Select your skill level" (Picker.current s') = "Advanced" /\
  Picker.placeholder_style skillLevelOptions (Picker.current s') = false /\
  forall other, other ∈ skillLevelOptions ->
    (Picker.checked (Picker.current s') other = true <->
     other = Picker.mkItem "Advanced" "Advanced").
Proof.
  apply (picker_shows_pressed_option skillLevelOptions "Select your skill level"
           (Picker.mkItem "Advanced" "Advanced") (Picker.mkState "" true)).
  - unfold skillLevelOptions. cbn [fmap list_fmap Picker.value].
    repeat (apply NoDup_cons; split;
            [rewrite ?not_elem_of_cons; repeat split; (discriminate || apply not_elem_of_nil) |]).
    apply NoDup_nil_2.
  - unfold skillLevelOptions. do 2 apply list_elem_of_further. apply list_elem_of_here.
Defined.

(** X15. The closed picker and the list of options agree: the text is drawn
    in the placeholder style, and is the placeholder, exactly when no option
    carries the check mark, that is when the value of the form is the value
    of none of the options. *)
Theorem picker_placeholder_iff_nothing_checked
    (items : list Picker.Item) (placeholder v : string) :
  (Picker.placeholder_style items v = true <->
   forall item, item ∈ items -> Picker.checked v item = false) /\
  (Picker.placeholder_style items v = true -> Picker.shown items placeholder v = placeholder) /\
  (Picker.placeholder_style items v = true <-> v ∉ Picker.value <$> items).
Proof.
  unfold Picker.placeholder_style, Picker.shown, Picker.checked.
  pose proof (selectedItem_none items v) as Hnone.
  destruct (Picker.selectedItem items v) as [found |] eqn:Hsel.
  - apply selectedItem_some in Hsel as [Hin Hv].
    repeat split; try discriminate.
    + intros H. specialize (H found Hin). apply String.eqb_neq in H. contradiction.
    + intros H. apply Hnone in H. discriminate.
  - assert (Hv : v ∉ Picker.value <$> items) by by apply Hnone.
    repeat split; try done.
    intros _ item Hin. apply String.eqb_neq. intros <-. apply Hv.
    apply list_elem_of_fmap. by exists item.
Qed.

(** The skill level picker of the signup screen starts on the placeholder:
    the default value of the field is the empty string. *)
Example skill_level_starts_on_placeholder :
  Picker.shown skillLevelOptions "Select your skill level" "" = "Select your skill level" /\
  Picker.placeholder_style skillLevelOptions "" = true.
Proof. split; reflexivity. Qed.

